(** * git-shell: commits, revisions and remotes read through the git executable

    A shallow embedding of [repo.go] and [repo_remote.go].  Go strings and
    byte slices are [string]s (a sequence of 8-bit [ascii] values), a Go
    result pair [(value, error)] is a pair of options ([None] is [nil]), the
    git executable is an oracle from invocations to outcomes, and a call
    threads a [World]: the commit cache of the repository and the list of
    the invocations made so far. *)

From Stdlib Require Import ZArith Ascii String List Bool Lia.
From stdpp Require Import base option gmap strings list pretty.

Open Scope Z_scope.
Open Scope list_scope.
Open Scope stdpp_scope.

#[local] Arguments String.append !_ _ / : simpl nomatch.

(** ** The parts of Go's [strings], [bytes], [unicode] and [utf8] in use *)

Module Go.

(** [len(s)] *)
Definition len (s : string) : nat := String.length s.

(** [strings.HasPrefix(s, prefix)] *)
Fixpoint HasPrefix (s prefix : string) {struct prefix} : bool :=
  match prefix with
  | EmptyString => true
  | String a prefix' =>
      match s with
      | EmptyString => false
      | String b s' => if Ascii.eqb a b then HasPrefix s' prefix' else false
      end
  end.

(** [strings.Contains(s, substr)] *)
Fixpoint Contains (s substr : string) : bool :=
  HasPrefix s substr
  || match s with
     | EmptyString => false
     | String _ s' => Contains s' substr
     end.

(** [bytes.Split(s, []byte{sep})] for a separator of one byte: the pieces
    between the separators, an empty piece included; never an empty list. *)
Fixpoint Split (s : string) (sep : ascii) : list string :=
  match s with
  | EmptyString => [EmptyString]
  | String c s' =>
      if Ascii.eqb c sep then EmptyString :: Split s' sep
      else match Split s' sep with
           | piece :: rest => String c piece :: rest
           | [] => [String c EmptyString]
           end
  end.

Definition byteval (c : ascii) : Z := Z.of_N (N_of_ascii c).

Definition RuneError : Z := 65533.

Definition inRange (lo hi b : Z) : bool := (lo <=? b) && (b <=? hi).

(** [utf8.DecodeRune(p)]: the first rune of [p] and its width in bytes;
    [(RuneError, 1)] for an encoding that is not valid, [(RuneError, 0)]
    for empty input. *)
Definition DecodeRune (p : string) : Z * nat :=
  match p with
  | EmptyString => (RuneError, 0%nat)
  | String c0 p1 =>
      let p0 := byteval c0 in
      if p0 <? 128 then (p0, 1%nat)
      else if (p0 <? 194) || (244 <? p0) then (RuneError, 1%nat)
      else
        let sz : nat :=
          if p0 <? 224 then 2%nat else if p0 <? 240 then 3%nat else 4%nat in
        let lo := if p0 =? 224 then 160 else if p0 =? 240 then 144 else 128 in
        let hi := if p0 =? 237 then 159 else if p0 =? 244 then 143 else 191 in
        if (len p <? sz)%nat then (RuneError, 1%nat)
        else
          match p1 with
          | EmptyString => (RuneError, 1%nat)
          | String c1 p2 =>
              let b1 := byteval c1 in
              if negb (inRange lo hi b1) then (RuneError, 1%nat)
              else if (sz <=? 2)%nat
              then (Z.lor (Z.shiftl (Z.land p0 31) 6) (Z.land b1 63), 2%nat)
              else
                match p2 with
                | EmptyString => (RuneError, 1%nat)
                | String c2 p3 =>
                    let b2 := byteval c2 in
                    if negb (inRange 128 191 b2) then (RuneError, 1%nat)
                    else if (sz <=? 3)%nat
                    then (Z.lor (Z.lor (Z.shiftl (Z.land p0 15) 12)
                                       (Z.shiftl (Z.land b1 63) 6))
                                (Z.land b2 63), 3%nat)
                    else
                      match p3 with
                      | EmptyString => (RuneError, 1%nat)
                      | String c3 _ =>
                          let b3 := byteval c3 in
                          if negb (inRange 128 191 b3) then (RuneError, 1%nat)
                          else (Z.lor (Z.lor (Z.lor
                                         (Z.shiftl (Z.land p0 7) 18)
                                         (Z.shiftl (Z.land b1 63) 12))
                                         (Z.shiftl (Z.land b2 63) 6))
                                      (Z.land b3 63), 4%nat)
                      end
                end
          end
  end.

(** [unicode.IsSpace(r)]: the White_Space property. *)
Definition IsSpace (r : Z) : bool :=
  inRange 9 13 r || (r =? 32) || (r =? 133) || (r =? 160)
  || (r =? 5760) || inRange 8192 8202 r || inRange 8232 8233 r
  || (r =? 8239) || (r =? 8287) || (r =? 12288).

(** The span under construction in [FieldsFunc] ([start >= 0]): fields are
    never empty, so the empty string stands for [start < 0]. *)
Definition closeSpan (cur : string) : list string :=
  match cur with
  | EmptyString => []
  | _ => [cur]
  end.

(** The loop of [bytes.FieldsFunc(s, unicode.IsSpace)].  [skip] counts the
    bytes of the rune decoded last that are still to be passed over (the
    loop's [i += size]); [space] tells whether that rune was white space. *)
Fixpoint fieldsLoop (s : string) (skip : nat) (space : bool) (cur : string)
  : list string :=
  match s with
  | EmptyString => closeSpan cur
  | String c s' =>
      match skip with
      | S k =>
          if space then fieldsLoop s' k space cur
          else fieldsLoop s' k space (cur +:+ String c EmptyString)
      | O =>
          let '(r, size) := DecodeRune s in
          if IsSpace r
          then closeSpan cur ++ fieldsLoop s' (Nat.pred size) true EmptyString
          else fieldsLoop s' (Nat.pred size) false
                          (cur +:+ String c EmptyString)
      end
  end.

(** [bytes.Fields(s)]: [s] split around each run of white space; on input
    that is all ASCII its fast path gives what [FieldsFunc] gives. *)
Definition Fields (s : string) : list string :=
  fieldsLoop s 0 false EmptyString.

End Go.

Definition tab : string := String "009"%char EmptyString.
Definition nl : string := String "010"%char EmptyString.

(** ** Errors, results and the outside world *)

(** An error raised outside the package (by the process runner or the
    operating system); [Error] is its [Error()] text. *)
Record Failure := { Error : string }.

(** The [error] values the package returns: its sentinels, an
    [errors.New(msg)] made on the spot, or an outside [Failure] handed on as
    it came. *)
Inductive error :=
| ErrRemoteNotExist
| ErrURLNotExist
| ErrDelAllNonPushURL
| ErrRevisionNotExist
| ErrInvalidFormat
| ErrMalformedOutput
| errors_New (msg : string)
| Raised (f : Failure).

(** A Go result pair [(value, error)]; [None] is [nil]. *)
Definition result (A : Type) : Type := option A * option error.

(** [time.Duration], in nanoseconds; [0] is the zero value. *)
Definition Duration := Z.

(** A command under construction: [NewCommand(args...)], [AddArgs(args...)]. *)
Definition Command := list string.
Definition NewCommand (args : list string) : Command := args.
Definition AddArgs (cmd : Command) (args : list string) : Command := cmd ++ args.

(** One run of the git executable. *)
Record Invocation := {
  argv : Command;
  dir : string;
  timeout : Duration
}.

(** Modelled from the spec: the declaration of [sha1], the key type of
    [commitCache], is missing.  A commit's identity: 20 bytes. *)
Definition sha1 := list ascii.

(** Modelled from the spec: the declaration of [Commit] is missing.  An
    author or committer: name, email, time and time zone offset. *)
Record Signature := {
  Name : string;
  Email : string;
  When : Z;
  Zone : Z
}.

(** Modelled from the spec: the declaration of [Commit] is missing.  Its
    identity, its parents in order, who wrote and who committed it, and the
    message. *)
Record Commit := {
  ID : sha1;
  parents : list sha1;
  Author : Signature;
  Committer : Signature;
  Message : string
}.

(** What a call can change: the repository's [commitCache] and the log of
    the invocations made, the latest last. *)
Record World := {
  commitCache : gmap (list ascii) Commit;
  invocations : list Invocation
}.

Definition Git (A : Type) : Type := World -> A * World.

Definition ret {A} (a : A) : Git A := fun w => (a, w).

Definition bind {A B} (m : Git A) (k : A -> Git B) : Git B :=
  fun w => let '(a, w') := m w in k a w'.

Notation "'let*' x ':=' m 'in' k" := (bind m (fun x => k))
  (at level 10, x pattern, m at level 100, k at level 200).

(** The first element of a variadic [opts ...T], or the zero value. *)
Definition firstOpt {T} (zero : T) (opts : list T) : T :=
  match opts with
  | opt :: _ => opt
  | [] => zero
  end.

(** [Reference]: the identity text and the refspec of a listed reference. *)
Module Reference.
Record t := {
  ID : string;
  Refspec : string
}.
End Reference.

Module LsRemoteOptions.
Record t := {
  Heads : bool;
  Tags : bool;
  Refs : bool;
  Patterns : list string;
  Timeout : Duration
}.
Definition zero : t :=
  {| Heads := false; Tags := false; Refs := false; Patterns := []; Timeout := 0 |}.
End LsRemoteOptions.

Module AddRemoteOptions.
Record t := { Fetch : bool; MirrorFetch : bool; Timeout : Duration }.
Definition zero : t := {| Fetch := false; MirrorFetch := false; Timeout := 0 |}.
End AddRemoteOptions.

Module RemoveRemoteOptions.
Record t := { Timeout : Duration }.
Definition zero : t := {| Timeout := 0 |}.
End RemoveRemoteOptions.

Module RemotesListOptions.
Record t := { Timeout : Duration }.
Definition zero : t := {| Timeout := 0 |}.
End RemotesListOptions.

Module RemoteURLGetOptions.
Record t := { Push : bool; All : bool; Timeout : Duration }.
Definition zero : t := {| Push := false; All := false; Timeout := 0 |}.
End RemoteURLGetOptions.

Module RemoteURLSetOptions.
Record t := { Push : bool; Timeout : Duration }.
Definition zero : t := {| Push := false; Timeout := 0 |}.
End RemoteURLSetOptions.

(** A [Repository]: its path (the [r.path] of [repo_remote.go]); its
    [commitCache] is the one of the [World]. *)
Record Repository := { Path : string }.

(** ** [repo_remote.go] *)

Section Remote.

(** The git executable: the standard output and the failure, if any, of an
    invocation. *)
Variable execute : Invocation -> string * option Failure.

(** [stdoutToStringSlice] is declared outside these files. *)
Variable stdoutToStringSlice : string -> list string.

(** [cmd.RunInDirWithTimeout(timeout, dir)] *)
Definition RunInDirWithTimeout (tmo : Duration) (d : string) (cmd : Command)
  : Git (string * option Failure) :=
  fun w =>
    let inv := {| argv := cmd; dir := d; timeout := tmo |} in
    (execute inv,
     {| commitCache := commitCache w; invocations := invocations w ++ [inv] |}).

(** [cmd.RunWithTimeout(timeout)]: no working directory. *)
Definition RunWithTimeout (tmo : Duration) (cmd : Command)
  : Git (string * option Failure) :=
  RunInDirWithTimeout tmo "" cmd.

(** The loop of [LsRemote] over the lines of the output. *)
Definition lsRemoteLine (refs : list Reference.t) (line : string) : list Reference.t :=
  let fields := Go.Fields line in
  if (length fields <? 2)%nat then refs
  else refs ++ [{| Reference.ID := nth 0 fields ""; Reference.Refspec := nth 1 fields "" |}].

Definition LsRemote (url : string) (opts : list LsRemoteOptions.t)
  : Git (result (list Reference.t)) :=
  let opt := firstOpt LsRemoteOptions.zero opts in
  let cmd := NewCommand ["ls-remote"; "--quiet"] in
  let cmd := if LsRemoteOptions.Heads opt then AddArgs cmd ["--heads"] else cmd in
  let cmd := if LsRemoteOptions.Tags opt then AddArgs cmd ["--tags"] else cmd in
  let cmd := if LsRemoteOptions.Refs opt then AddArgs cmd ["--refs"] else cmd in
  let cmd := AddArgs cmd [url] in
  let cmd :=
    if (0 <? length (LsRemoteOptions.Patterns opt))%nat
    then AddArgs cmd (LsRemoteOptions.Patterns opt) else cmd in
  let* (stdout, err) := RunWithTimeout (LsRemoteOptions.Timeout opt) cmd in
  match err with
  | Some e => ret (None, Some (Raised e))
  | None =>
      let lines := Go.Split stdout "010"%char in
      ret (Some (fold_left lsRemoteLine lines []), None)
  end.

(** [IsURLAccessible(timeout, url)] *)
Definition IsURLAccessible (tmo : Duration) (url : string) : Git bool :=
  let* (_, err) :=
    LsRemote url [{| LsRemoteOptions.Heads := false; LsRemoteOptions.Tags := false;
                     LsRemoteOptions.Refs := false;
                     LsRemoteOptions.Patterns := ["HEAD"];
                     LsRemoteOptions.Timeout := tmo |}] in
  ret (match err with None => true | Some _ => false end).

Definition RepoRemoveRemote (repoPath name : string)
    (opts : list RemoveRemoteOptions.t) : Git (option error) :=
  let opt := firstOpt RemoveRemoteOptions.zero opts in
  let* (_, err) :=
    RunInDirWithTimeout (RemoveRemoteOptions.Timeout opt) repoPath
      (NewCommand ["remote"; "remove"; name]) in
  match err with
  | Some e =>
      if Go.Contains (Error e) "error: No such remote"
         || Go.Contains (Error e) "fatal: No such remote"
      then ret (Some ErrRemoteNotExist)
      else ret (Some (Raised e))
  | None => ret None
  end.

Definition RepoRemotesList (repoPath : string) (opts : list RemotesListOptions.t)
  : Git (result (list string)) :=
  let opt := firstOpt RemotesListOptions.zero opts in
  let* (stdout, err) :=
    RunInDirWithTimeout (RemotesListOptions.Timeout opt) repoPath
      (NewCommand ["remote"]) in
  match err with
  | Some e => ret (None, Some (Raised e))
  | None => ret (Some (stdoutToStringSlice stdout), None)
  end.

Definition RepoRemoteURLGet (repoPath name : string)
    (opts : list RemoteURLGetOptions.t) : Git (result (list string)) :=
  let opt := firstOpt RemoteURLGetOptions.zero opts in
  let cmd := NewCommand ["remote"; "get-url"] in
  let cmd := if RemoteURLGetOptions.Push opt then AddArgs cmd ["--push"] else cmd in
  let cmd := if RemoteURLGetOptions.All opt then AddArgs cmd ["--all"] else cmd in
  let* (stdout, err) :=
    RunInDirWithTimeout (RemoteURLGetOptions.Timeout opt) repoPath
      (AddArgs cmd [name]) in
  match err with
  | Some e => ret (None, Some (Raised e))
  | None => ret (Some (stdoutToStringSlice stdout), None)
  end.

Definition RepoRemoteURLSetFirst (repoPath name newurl : string)
    (opts : list RemoteURLSetOptions.t) : Git (option error) :=
  let opt := firstOpt RemoteURLSetOptions.zero opts in
  let cmd := NewCommand ["remote"; "set-url"] in
  let cmd := if RemoteURLSetOptions.Push opt then AddArgs cmd ["--push"] else cmd in
  let* (_, err) :=
    RunInDirWithTimeout (RemoteURLSetOptions.Timeout opt) repoPath
      (AddArgs cmd [name; newurl]) in
  match err with
  | Some e =>
      if Go.Contains (Error e) "No such remote"
      then ret (Some ErrRemoteNotExist)
      else ret (Some (Raised e))
  | None => ret None
  end.

Definition RepoRemoteURLSetRegex (repoPath name urlregex newurl : string)
    (opts : list RemoteURLSetOptions.t) : Git (option error) :=
  let opt := firstOpt RemoteURLSetOptions.zero opts in
  let cmd := NewCommand ["remote"; "set-url"] in
  let cmd := if RemoteURLSetOptions.Push opt then AddArgs cmd ["--push"] else cmd in
  let* (_, err) :=
    RunInDirWithTimeout (RemoteURLSetOptions.Timeout opt) repoPath
      (AddArgs cmd [name; newurl; urlregex]) in
  match err with
  | Some e =>
      if Go.Contains (Error e) "No such URL found"
      then ret (Some ErrURLNotExist)
      else if Go.Contains (Error e) "No such remote"
      then ret (Some ErrRemoteNotExist)
      else ret (Some (Raised e))
  | None => ret None
  end.

Definition RepoRemoteURLDelRegex (repoPath name urlregex : string)
    (opts : list RemoteURLSetOptions.t) : Git (option error) :=
  let opt := firstOpt RemoteURLSetOptions.zero opts in
  let cmd := NewCommand ["remote"; "set-url"; "--delete"] in
  let cmd := if RemoteURLSetOptions.Push opt then AddArgs cmd ["--push"] else cmd in
  let* (_, err) :=
    RunInDirWithTimeout (RemoteURLSetOptions.Timeout opt) repoPath
      (AddArgs cmd [name; urlregex]) in
  match err with
  | Some e =>
      if Go.Contains (Error e) "Will not delete all non-push URLs"
      then ret (Some ErrDelAllNonPushURL)
      else ret (Some (Raised e))
  | None => ret None
  end.

Definition RepoAddRemote (repoPath name url : string)
    (opts : list AddRemoteOptions.t) : Git (option error) :=
  let opt := firstOpt AddRemoteOptions.zero opts in
  let cmd := NewCommand ["remote"; "add"] in
  let cmd := if AddRemoteOptions.Fetch opt then AddArgs cmd ["-f"] else cmd in
  let cmd :=
    if AddRemoteOptions.MirrorFetch opt then AddArgs cmd ["--mirror=fetch"] else cmd in
  let* (_, err) :=
    RunInDirWithTimeout (AddRemoteOptions.Timeout opt) repoPath
      (AddArgs cmd [name; url]) in
  ret (option_map Raised err).

Definition RepoRemoteURLAdd (repoPath name newurl : string)
    (opts : list RemoteURLSetOptions.t) : Git (option error) :=
  let opt := firstOpt RemoteURLSetOptions.zero opts in
  let cmd := NewCommand ["remote"; "set-url"; "--add"] in
  let cmd := if RemoteURLSetOptions.Push opt then AddArgs cmd ["--push"] else cmd in
  let* (_, err) :=
    RunInDirWithTimeout (RemoteURLSetOptions.Timeout opt) repoPath
      (AddArgs cmd [name; newurl]) in
  ret (option_map Raised err).

(** The methods of [*Repository]: the functions above at the repository's
    path. *)
Definition AddRemote (r : Repository) (name url : string) opts :=
  RepoAddRemote (Path r) name url opts.
Definition RemoveRemote (r : Repository) (name : string) opts :=
  RepoRemoveRemote (Path r) name opts.
Definition RemotesList (r : Repository) opts :=
  RepoRemotesList (Path r) opts.
Definition RemoteURLGet (r : Repository) (name : string) opts :=
  RepoRemoteURLGet (Path r) name opts.
Definition RemoteURLSetFirst (r : Repository) (name newurl : string) opts :=
  RepoRemoteURLSetFirst (Path r) name newurl opts.
Definition RemoteURLSetRegex (r : Repository) (name urlregex newurl : string) opts :=
  RepoRemoteURLSetRegex (Path r) name urlregex newurl opts.
Definition RemoteURLAdd (r : Repository) (name newvalue : string) opts :=
  RepoRemoteURLAdd (Path r) name newvalue opts.
Definition RemoteURLDelRegex (r : Repository) (name urlregex : string) opts :=
  RepoRemoteURLDelRegex (Path r) name urlregex opts.

End Remote.

(** ** [repo.go] *)

Definition _PRETTY_LOG_FORMAT : string := "--pretty=format:%H".

Section Repo.

(** [repo.GetCommit(commitId)] is declared outside these files; a
    [*Commit] is an [option Commit]. *)
Variable GetCommit : string -> Git (result Commit).

(** The [for _, commitId := range parts] loop; [l ++ [commit]] is
    [l.PushBack(commit)]. *)
Fixpoint parseLoop (parts : list string) (l : list (option Commit))
  : Git (result (list (option Commit))) :=
  match parts with
  | [] => ret (Some l, None)
  | commitId :: parts' =>
      let* (commit, err) := GetCommit commitId in
      match err with
      | Some e => ret (None, Some e)
      | None => parseLoop parts' (l ++ [commit])
      end
  end.

Definition parsePrettyFormatLogToList (logs : string)
  : Git (result (list (option Commit))) :=
  let l := [] in
  if (Go.len logs =? 0)%nat then ret (Some l, None)
  else
    let parts := Go.Split logs "010"%char in
    parseLoop parts l.

(** The lookups of [ids] one after the other, first to last: their commits
    in that order, or the error of the first lookup that fails. *)
Fixpoint commitsInOrder (ids : list string) : Git (result (list (option Commit))) :=
  match ids with
  | [] => ret (Some [], None)
  | id :: ids' =>
      let* (commit, err) := GetCommit id in
      match err with
      | Some e => ret (None, Some e)
      | None =>
          let* (commits, err') := commitsInOrder ids' in
          match commits, err' with
          | Some cs, None => ret (Some (commit :: cs), None)
          | _, _ => ret (None, err')
          end
      end
  end.

End Repo.

Section OpenRepo.

(** [filepath.Abs] and [isDir] ask the operating system. *)
Variable Abs : string -> string * option Failure.
Variable isDir : string -> bool.

Definition OpenRepository (repoPath : string) : result Repository :=
  let '(repoPath, err) := Abs repoPath in
  match err with
  | Some e => (None, Some (Raised e))
  | None =>
      if negb (isDir repoPath)
      then (None, Some (errors_New "no such file or directory"))
      else (Some {| Path := repoPath |}, None)
  end.

End OpenRepo.

(** ** The identity type *)

Module Identity.

(** The value of a hexadecimal digit, of either case. *)
Definition hexValue (c : ascii) : option N :=
  let v := N_of_ascii c in
  if ((48 <=? v) && (v <=? 57))%N then Some (v - 48)%N
  else if ((97 <=? v) && (v <=? 102))%N then Some (v - 87)%N
  else if ((65 <=? v) && (v <=? 70))%N then Some (v - 55)%N
  else None.

(** The lower-case hexadecimal digit of a value below 16. *)
Definition hexDigit (n : N) : ascii :=
  if (n <? 10)%N then ascii_of_N (48 + n) else ascii_of_N (87 + n).

Definition isHex (c : ascii) : bool :=
  match hexValue c with Some _ => true | None => false end.

Fixpoint allHex (s : string) : bool :=
  match s with
  | EmptyString => true
  | String c s' => isHex c && allHex s'
  end.

(** A string of exactly 40 hexadecimal characters. *)
Definition is40Hex (s : string) : bool := (Go.len s =? 40)%nat && allHex s.

Definition lowerByte (c : ascii) : ascii :=
  let v := N_of_ascii c in
  if ((65 <=? v) && (v <=? 90))%N then ascii_of_N (v + 32) else c.

Fixpoint lowercase (s : string) : string :=
  match s with
  | EmptyString => EmptyString
  | String c s' => String (lowerByte c) (lowercase s')
  end.

(** Two hexadecimal digits to a byte, along the text. *)
Fixpoint decodeHex (s : string) : option sha1 :=
  match s with
  | EmptyString => Some []
  | String a (String b s') =>
      match hexValue a, hexValue b, decodeHex s' with
      | Some h, Some l, Some rest => Some (ascii_of_N (16 * h + l) :: rest)
      | _, _, _ => None
      end
  | String _ EmptyString => None
  end.

(** Modelled from the spec: the identity type's source file is missing.
    [parse(text) -> Identity | fails with InvalidFormat] when the text is
    not 40 hex characters; hex digits fold to lower case on parse. *)
Definition parse (text : string) : result sha1 :=
  if negb (Go.len text =? 40)%nat then (None, Some ErrInvalidFormat)
  else
    match decodeHex text with
    | Some id => (Some id, None)
    | None => (None, Some ErrInvalidFormat)
    end.

(** Modelled from the spec: the identity type's source file is missing.
    [toString() -> text]: 40 lower-case hex characters for 20 bytes. *)
Fixpoint toString (id : sha1) : string :=
  match id with
  | [] => EmptyString
  | b :: rest =>
      let v := N_of_ascii b in
      String (hexDigit (v / 16)) (String (hexDigit (v mod 16)) (toString rest))
  end.

End Identity.

(** ** Path escaping *)

(** Modelled from the spec: [escapePath] is missing from the source files,
    only its test is there.  A path that begins with a colon gets a leading
    backslash; every other input, the empty one included, passes through. *)
Definition escapePath (path : string) : string :=
  if (Go.len path =? 0)%nat then path
  else
    match path with
    | String ":" _ => String "\" path
    | _ => path
    end.

(** ** Revisions, the commit cache and the traversal operations *)

Module LogOptions.
(** [Since]: the lower time bound in seconds of the epoch, when given;
    [Skip] and [Limit]: the pagination, [0] for absent. *)
Record t := {
  Since : option Z;
  Path : string;
  Skip : Z;
  Limit : Z;
  Timeout : Duration
}.
End LogOptions.

Module CommitsSinceOptions.
Record t := { Path : string; Timeout : Duration }.
End CommitsSinceOptions.

Module CommitByRevisionOptions.
Record t := { Timeout : Duration }.
End CommitByRevisionOptions.

Module DiffNameOnlyOptions.
Record t := { NeedsMergeBase : bool; Path : string; Timeout : Duration }.
End DiffNameOnlyOptions.

Module RevListOptions.
Record t := { Path : string; Timeout : Duration }.
End RevListOptions.

Module RevListCountOptions.
Record t := { Path : string; Timeout : Duration }.
End RevListCountOptions.

(** Modelled from the spec: the count of rev-list is a decimal number on a
    line of output. *)
Fixpoint digitsValue (s : string) (acc : Z) : option Z :=
  match s with
  | EmptyString => Some acc
  | String c s' =>
      let v := Go.byteval c in
      if (48 <=? v) && (v <=? 57) then digitsValue s' (10 * acc + (v - 48))
      else None
  end.

Definition parseCount (line : string) : option Z :=
  match line with
  | EmptyString => None
  | _ => digitsValue line 0
  end.

(** Modelled from the spec: blank trailing lines of an identity list are
    ignored; the output without the newlines at its end. *)
Fixpoint dropTrailingNewlines (s : string) : string :=
  match s with
  | EmptyString => EmptyString
  | String c s' =>
      match dropTrailingNewlines s' with
      | EmptyString => if Ascii.eqb c "010" then EmptyString else String c EmptyString
      | kept => String c kept
      end
  end.

(** Modelled from the spec: the first line of an output holds the identity
    or the count asked for. *)
Definition firstLine (stdout : string) : string :=
  hd EmptyString (Go.Split stdout "010"%char).

(** Modelled from the spec: the path filter, escaped, is the trailing
    argument of an invocation; no filter, no argument. *)
Definition pathArgs (path : string) : list string :=
  if (Go.len path =? 0)%nat then [] else [escapePath path].

(** Modelled from the spec: name-only parsing is missing from the source
    files.  The lines of the output that are not blank, in the order the
    tool printed them. *)
Definition parseNameOnly (stdout : string) : list string :=
  List.filter (fun line => negb (Go.len line =? 0)%nat) (Go.Split stdout "010"%char).

(** Whether file [p] is the filter [path] itself or lies under it. *)
Definition underPath (path p : string) : bool :=
  String.eqb p path || Go.HasPrefix p (path +:+ "/").

Section Operations.

Variable execute : Invocation -> string * option Failure.

(** The invocation that prints the record of one commit, and the parser of
    that record ([None] when the record is malformed); the spec leaves the
    grammar of both to the tool. *)
Variable commitRecordCommand : sha1 -> Command.
Variable parseCommitRecord : string -> option Commit.

Variable repo : Repository.

(** Modelled from the spec: the commit cache's access path is missing from
    the source files.  Lookup-or-parse: check the cache; on a miss run the
    tool for that one commit, parse its record, insert it, return it. *)
Definition lookupOrParse (id : sha1) : Git (result Commit) :=
  fun w =>
    match commitCache w !! id with
    | Some c => ret (Some c, None) w
    | None =>
        (let* (stdout, err) :=
           RunInDirWithTimeout execute 0 (Path repo) (commitRecordCommand id) in
         match err with
         | Some e => ret (None, Some (Raised e))
         | None =>
             match parseCommitRecord stdout with
             | None => ret (None, Some ErrMalformedOutput)
             | Some c =>
                 fun w' =>
                   ((Some c, None),
                    {| commitCache := <[id := c]> (commitCache w');
                       invocations := invocations w' |})
             end
         end) w
    end.

(** Modelled from the spec: [GetCommit] is missing from the source files.
    The identity text is parsed, then the commit is looked up or parsed. *)
Definition GetCommit (commitId : string) : Git (result Commit) :=
  match Identity.parse commitId with
  | (Some id, None) => lookupOrParse id
  | (_, err) => ret (None, err)
  end.

(** Modelled from the spec: the texts of the tool that stand for a
    revision that does not exist. *)
Definition isRevisionNotExist (text : string) : bool :=
  Go.Contains text "unknown revision"
  || Go.Contains text "not a valid object name".

Definition revParseCommand (rev : string) : Command :=
  NewCommand ["rev-parse"; rev].

(** Modelled from the spec: the revision resolver is missing from the
    source files.  The tool's rev-parse resolves the expression; a failure
    with a recognised text is [ErrRevisionNotExist], any other failure is
    handed on. *)
Definition resolveToIdentity (tmo : Duration) (rev : string) : Git (result sha1) :=
  let* (stdout, err) :=
    RunInDirWithTimeout execute tmo (Path repo) (revParseCommand rev) in
  match err with
  | Some e =>
      if isRevisionNotExist (Error e) then ret (None, Some ErrRevisionNotExist)
      else ret (None, Some (Raised e))
  | None => ret (Identity.parse (firstLine stdout))
  end.

(** Modelled from the spec: [CommitByRevision] is missing from the source
    files, only its test is there.  Resolve, then lookup-or-parse. *)
Definition CommitByRevision (rev : string) (opt : CommitByRevisionOptions.t)
  : Git (result Commit) :=
  let* (id, err) := resolveToIdentity (CommitByRevisionOptions.Timeout opt) rev in
  match id, err with
  | Some id, None => lookupOrParse id
  | _, _ => ret (None, err)
  end.

Definition logCommand (rev : string) (opt : LogOptions.t) : Command :=
  let cmd := NewCommand ["log"; _PRETTY_LOG_FORMAT; rev] in
  let cmd :=
    match LogOptions.Since opt with
    | Some since => AddArgs cmd ["--since=" +:+ pretty since]
    | None => cmd
    end in
  let cmd :=
    if 0 <? LogOptions.Skip opt
    then AddArgs cmd ["--skip=" +:+ pretty (LogOptions.Skip opt)] else cmd in
  let cmd :=
    if 0 <? LogOptions.Limit opt
    then AddArgs cmd ["--max-count=" +:+ pretty (LogOptions.Limit opt)] else cmd in
  AddArgs (AddArgs cmd ["--"]) (pathArgs (LogOptions.Path opt)).

(** Modelled from the spec: [Log] is missing from the source files, only
    its test is there.  The tool filters by time and path and paginates;
    its identity list is parsed by [parsePrettyFormatLogToList]. *)
Definition Log (rev : string) (opt : LogOptions.t)
  : Git (result (list (option Commit))) :=
  let* (stdout, err) :=
    RunInDirWithTimeout execute (LogOptions.Timeout opt) (Path repo)
      (logCommand rev opt) in
  match err with
  | Some e => ret (None, Some (Raised e))
  | None => parsePrettyFormatLogToList GetCommit stdout
  end.

(** Modelled from the spec: [CommitsSince] is missing from the source
    files, only its test is there.  An entry point of its own: the time
    bound is a positional argument, the path filter the only option. *)
Definition CommitsSince (rev : string) (since : Z) (opt : CommitsSinceOptions.t)
  : Git (result (list (option Commit))) :=
  let cmd := NewCommand ["log"; _PRETTY_LOG_FORMAT; rev] in
  let cmd := AddArgs cmd ["--since=" +:+ pretty since; "--"] in
  let cmd := AddArgs cmd (pathArgs (CommitsSinceOptions.Path opt)) in
  let* (stdout, err) :=
    RunInDirWithTimeout execute (CommitsSinceOptions.Timeout opt) (Path repo) cmd in
  match err with
  | Some e => ret (None, Some (Raised e))
  | None => parsePrettyFormatLogToList GetCommit stdout
  end.

Definition diffNameOnlyCommand (base head : string) (opt : DiffNameOnlyOptions.t)
  : Command :=
  let cmd := NewCommand ["diff"; "--name-only"] in
  let cmd :=
    if DiffNameOnlyOptions.NeedsMergeBase opt
    then AddArgs cmd [base +:+ "..." +:+ head]
    else AddArgs cmd [base; head] in
  AddArgs (AddArgs cmd ["--"]) (pathArgs (DiffNameOnlyOptions.Path opt)).

(** Modelled from the spec: [DiffNameOnly] is missing from the source
    files, only its test is there.  The tool applies the path filter; the
    output is not filtered again. *)
Definition DiffNameOnly (base head : string) (opt : DiffNameOnlyOptions.t)
  : Git (result (list string)) :=
  let* (stdout, err) :=
    RunInDirWithTimeout execute (DiffNameOnlyOptions.Timeout opt) (Path repo)
      (diffNameOnlyCommand base head opt) in
  match err with
  | Some e => ret (None, Some (Raised e))
  | None => ret (Some (parseNameOnly stdout), None)
  end.

(** Modelled from the spec: [RevListCount] is missing from the source
    files, only its test is there.  The refspecs are checked before
    anything is run; the count is a Go [int64], [0] beside an error. *)
Definition RevListCount (refspecs : list string) (opt : RevListCountOptions.t)
  : Git (Z * option error) :=
  if (length refspecs =? 0)%nat
  then ret (0, Some (errors_New "must have at least one refspec"))
  else
    let cmd := AddArgs (NewCommand ["rev-list"; "--count"]) refspecs in
    let cmd := AddArgs (AddArgs cmd ["--"]) (pathArgs (RevListCountOptions.Path opt)) in
    let* (stdout, err) :=
      RunInDirWithTimeout execute (RevListCountOptions.Timeout opt) (Path repo) cmd in
    match err with
    | Some e => ret (0, Some (Raised e))
    | None =>
        match parseCount (firstLine stdout) with
        | Some n => ret (n, None)
        | None => ret (0, Some ErrMalformedOutput)
        end
    end.

(** Modelled from the spec: [RevList] is missing from the source files,
    only its test is there.  The same check as [RevListCount]; each
    identity of the list is resolved through [GetCommit].  The tool ends
    every line of the list with a newline and the spec has blank trailing
    lines ignored: they are dropped here, the parser of [repo.go] looking up
    every piece it is given. *)
Definition RevList (refspecs : list string) (opt : RevListOptions.t)
  : Git (result (list (option Commit))) :=
  if (length refspecs =? 0)%nat
  then ret (None, Some (errors_New "must have at least one refspec"))
  else
    let cmd := AddArgs (NewCommand ["rev-list"]) refspecs in
    let cmd := AddArgs (AddArgs cmd ["--"]) (pathArgs (RevListOptions.Path opt)) in
    let* (stdout, err) :=
      RunInDirWithTimeout execute (RevListOptions.Timeout opt) (Path repo) cmd in
    match err with
    | Some e => ret (None, Some (Raised e))
    | None => parsePrettyFormatLogToList GetCommit (dropTrailingNewlines stdout)
    end.

End Operations.

(** ** Properties and their vocabulary *)

(** A result pair holds a value or an error, never both and never neither. *)
Definition valueXorError {A} (r : result A) : Prop :=
  match r with
  | (Some _, None) | (None, Some _) => True
  | _ => False
  end.

(** The references a listing stands for: one for each line of at least two
    fields, made of its first two fields, the lines taken first to last. *)
Definition hasTwoFields (line : string) : bool :=
  (2 <=? length (Go.Fields line))%nat.

Definition referenceOfLine (line : string) : Reference.t :=
  {| Reference.ID := nth 0 (Go.Fields line) "";
     Reference.Refspec := nth 1 (Go.Fields line) "" |}.

Definition referencesOf (stdout : string) : list Reference.t :=
  map referenceOfLine (List.filter hasTwoFields (Go.Split stdout "010"%char)).

(** A line of nothing but ASCII white space. *)
Fixpoint blankLine (line : string) : bool :=
  match line with
  | EmptyString => true
  | String c line' => Ascii.is_space c && blankLine line'
  end.


(** The world after one more invocation. *)
Definition invoked (w : World) (inv : Invocation) : World :=
  {| commitCache := commitCache w; invocations := invocations w ++ [inv] |}.

(** ** Fixtures *)

Definition world0 : World := {| commitCache := ∅; invocations := [] |}.

(** A tool that fails every invocation with the given text. *)
Definition failingWith (text : string) : Invocation -> string * option Failure :=
  fun _ => ("", Some {| Error := text |}).

(** A tool that answers every invocation with the given output. *)
Definition printing (stdout : string) : Invocation -> string * option Failure :=
  fun _ => (stdout, None).

(** A commit of the test repository, held in the cache. *)
Definition tipText : string := "4e59b72440188e7c2578299fc28ea425fbe9aece".

Definition tipID : sha1 :=
  match Identity.decodeHex tipText with
  | Some id => id
  | None => []
  end.

Definition someone : Signature :=
  {| Name := "alice"; Email := "alice@example.com"; When := 1581250680; Zone := 0 |}.

Definition tipCommit : Commit :=
  {| ID := tipID; parents := []; Author := someone; Committer := someone;
     Message := "init" |}.

Definition worldTip : World :=
  {| commitCache := {[ tipID := tipCommit ]}; invocations := [] |}.

Definition testrepo : Repository := {| Path := "/srv/repo" |}.

(** [GetCommit] over a tool that is out of reach: only the cache answers. *)
Definition cachedGetCommit : string -> Git (result Commit) :=
  GetCommit (failingWith "unreachable") (fun _ => []) (fun _ => None) testrepo.


(** ** More of [repo.go]: the commands run in a repository *)

Section RepoCommands.

Variable execute : Invocation -> string * option Failure.

(** [cmd.RunInDir(dir)] is declared outside these files: a run in [dir]
    under the runner's own timeout. *)
Variable runnerTimeout : Duration.

Definition RunInDir (d : string) (cmd : Command) : Git (string * option Failure) :=
  RunInDirWithTimeout execute runnerTimeout d cmd.

Definition Pull (repoPath : string) (all : bool) : Git (option error) :=
  let cmd := NewCommand ["pull"] in
  let cmd := if all then AddArgs cmd ["--all"] else cmd in
  let* (_, err) := RunInDir repoPath cmd in
  ret (option_map Raised err).

Definition Push (repoPath remote branch : string) : Git (option error) :=
  let* (_, err) := RunInDir repoPath (NewCommand ["push"; remote; branch]) in
  ret (option_map Raised err).

Definition Reset (repoPath : string) (hard : bool) (revision : string)
  : Git (option error) :=
  let cmd := NewCommand ["reset"] in
  let cmd := if hard then AddArgs cmd ["--hard"] else cmd in
  let* (_, err) := RunInDir repoPath (AddArgs cmd [revision]) in
  ret (option_map Raised err).

End RepoCommands.

(** ** Vocabulary of the further properties *)

(** A call runs the tool once, in directory [d] under timeout [tmo], and
    touches nothing else of the world. *)
Definition runsOnce {A} (m : Git A) (d : string) (tmo : Duration) : Prop :=
  forall w, exists inv,
      snd (m w) = invoked w inv /\ dir inv = d /\ timeout inv = tmo.

(** The number of bytes [c] in [s]. *)
Fixpoint countByte (c : ascii) (s : string) : nat :=
  match s with
  | EmptyString => 0%nat
  | String b s' => ((if Ascii.eqb b c then 1 else 0) + countByte c s')%nat
  end.

(** No byte of [s] is ASCII white space. *)
Fixpoint spaceFree (s : string) : bool :=
  match s with
  | EmptyString => true
  | String c s' => negb (Ascii.is_space c) && spaceFree s'
  end.

(** A byte of a token: ASCII and not white space. *)
Definition tokenByte (c : ascii) : bool :=
  (Go.byteval c <? 128) && negb (Ascii.is_space c).

Fixpoint tokenBytes (s : string) : bool :=
  match s with
  | EmptyString => true
  | String c s' => tokenByte c && tokenBytes s'
  end.

(** A token: one byte at least, all of them token bytes. *)
Definition token (s : string) : bool :=
  negb (Go.len s =? 0)%nat && tokenBytes s.

(** A reference made of two tokens, and the listing git prints for a list
    of them: the identity, a tab, the refspec and a newline for each. *)
Definition wellFormed (r : Reference.t) : bool :=
  token (Reference.ID r) && token (Reference.Refspec r).

Definition listingLine (r : Reference.t) : string :=
  Reference.ID r +:+ tab +:+ Reference.Refspec r.

Fixpoint listing (refs : list Reference.t) : string :=
  match refs with
  | [] => EmptyString
  | r :: refs' => listingLine r +:+ nl +:+ listing refs'
  end.

(** A lookup that knows every identity. *)
Definition knownGetCommit : string -> Git (result Commit) :=
  fun _ w => ((Some tipCommit, None), w).

(** A tool that resolves nothing but knows the host of the test remote. *)
Definition remoteTool (inv : Invocation) : string * option Failure :=
  match argv inv with
  | ["ls-remote"; "--quiet"; url; "HEAD"] =>
      if String.eqb url "https://example.com/repo.git"
      then (tipText +:+ tab +:+ "HEAD" +:+ nl, None)
      else ("", Some {| Error := "fatal: repository not found" |})
  | _ => ("", Some {| Error := "fatal: No such remote 'origin'" |})
  end.

(** A call reports an error exactly when its one run of the tool failed;
    [errOf] reads the error off what the call returns. *)
Definition reportsToolFailure
    (execute : Invocation -> string * option Failure)
    {A} (errOf : A -> option error) (m : Git A) : Prop :=
  forall w, exists inv,
      snd (m w) = invoked w inv
      /\ (errOf (fst (m w)) = None <-> snd (execute inv) = None).

(** Failure [f] of the tool accounts for error [err]: [err] is [f] handed
    on, or a sentinel whose phrase is in the text of [f]. *)
Definition accountsFor (f : Failure) (err : error) : Prop :=
  match err with
  | Raised f' => f' = f
  | ErrRemoteNotExist => Go.Contains (Error f) "No such remote" = true
  | ErrURLNotExist => Go.Contains (Error f) "No such URL found" = true
  | ErrDelAllNonPushURL =>
      Go.Contains (Error f) "Will not delete all non-push URLs" = true
  | _ => False
  end.

(** Every error of a call is accounted for by the failure of its one run. *)
Definition errorsAccounted
    (execute : Invocation -> string * option Failure)
    {A} (errOf : A -> option error) (m : Git A) : Prop :=
  forall w err,
    errOf (fst (m w)) = Some err ->
    exists inv f,
      snd (m w) = invoked w inv /\ snd (execute inv) = Some f /\ accountsFor f err.

(** The next [n] bytes of [s] are there and none is ASCII white space. *)
Fixpoint highBytes (n : nat) (s : string) : Prop :=
  match n with
  | O => True
  | S k =>
      match s with
      | EmptyString => False
      | String c s' => Ascii.is_space c = false /\ highBytes k s'
      end
  end.

(** A field as [bytes.Fields] gives it: not empty, no ASCII white space. *)
Definition isField (f : string) : Prop := f <> "" /\ spaceFree f = true.

(** ** The git executable, as far as the diff and the revision lookup go *)

(** Modelled from the spec: the tool's output of a list of lines, a newline
    after each. *)
Fixpoint unlines (lines : list string) : string :=
  match lines with
  | [] => EmptyString
  | line :: lines' => line +:+ nl +:+ unlines lines'
  end.

(** Modelled from the spec: the path a pathspec argument of the tool names.
    A leading colon opens pathspec magic and names no plain path; a leading
    backslash takes the next character as it is. *)
Definition specPath (spec : string) : option string :=
  match spec with
  | String ":" _ => None
  | String "\" rest => Some rest
  | _ => Some spec
  end.

Definition matchesSpec (spec file : string) : bool :=
  match specPath spec with
  | Some path => underPath path file
  | None => false
  end.

(** The arguments of a diff before and after the first ["--"]: the
    revisions and the pathspecs. *)
Fixpoint splitAtDashes (args : list string) : list string * list string :=
  match args with
  | [] => ([], [])
  | arg :: args' =>
      if String.eqb arg "--" then ([], args')
      else let '(revs, specs) := splitAtDashes args' in (arg :: revs, specs)
  end.

(** Modelled from the spec: the tool's diff with name-only output.
    [changes revs] are the paths that differ for the revision arguments
    [revs] (two revisions, or one three-dot range, whose meaning is the
    tool's own), in the tool's order; with pathspecs the tool prints the
    changed paths that one of them names, or that lie under one. *)
Definition gitDiff (changes : list string -> list string) (inv : Invocation)
  : string * option Failure :=
  match argv inv with
  | "diff" :: "--name-only" :: args =>
      let '(revs, specs) := splitAtDashes args in
      let changed := changes revs in
      (unlines (match specs with
                | [] => changed
                | _ => List.filter
                         (fun file => existsb (fun spec => matchesSpec spec file) specs)
                         changed
                end), None)
  | _ => ("", Some {| Error := "usage: git diff --name-only <revisions> -- <paths>" |})
  end.


(** The commits of [store] whose identity, in text, begins with the
    abbreviation in lower case. *)
Definition candidates (store : list Commit) (rev : string) : list Commit :=
  List.filter
    (fun c => Go.HasPrefix (Identity.toString (ID c)) (Identity.lowercase rev))
    store.

Definition unknownRevision (rev : string) : Failure :=
  {| Error := "fatal: ambiguous argument '" +:+ rev
              +:+ "': unknown revision or path not in the working tree." |}.

(** Modelled from the spec: the tool's rev-parse over a repository of the
    commits [store] and no references.  A short identity is a prefix, of
    hex digits of either case and four at least, that resolves to exactly
    one full identity, printed on a line; anything else fails as an unknown
    revision. *)
Definition gitRevParse (store : list Commit) (rev : string) : string * option Failure :=
  if Identity.allHex rev && (4 <=? Go.len rev)%nat
  then match candidates store rev with
       | [c] => (Identity.toString (ID c) +:+ nl, None)
       | _ => ("", Some (unknownRevision rev))
       end
  else ("", Some (unknownRevision rev)).





(** ** Fixtures of the tool *)

(** The changed paths of the test repository, for the revisions of the
    tests. *)
Definition testChanges (revs : list string) : list string :=
  match revs with
  | [base; head] =>
      if String.eqb base "ef7bebf8bdb1919d947afe46ab4b2fb4278039b3"
      then ["fix.txt"]
      else ["fix.txt"; "src/test/java/com/github/AppTest.java"]
  | _ => ["fix.txt"; "pom.xml"; "src/test/java/com/github/AppTest.java"]
  end.

(** The record of a commit is, for the fixtures, its identity in text. *)
Definition recordCommand (id : sha1) : Command :=
  ["cat-file"; "commit"; Identity.toString id].

Definition readRecord (store : list Commit) (record : string) : option Commit :=
  List.find (fun c => String.eqb (Identity.toString (ID c)) record) store.

(** The tool over a repository that holds [tipCommit] alone. *)
Definition tipTool (inv : Invocation) : string * option Failure :=
  match argv inv with
  | ["rev-parse"; rev] => gitRevParse [tipCommit] rev
  | ["cat-file"; "commit"; text] => (text, None)
  | _ => ("", Some {| Error := "fatal: not a git command" |})
  end.

(** ** Examples *)

Example Split_empty : Go.Split "" "010"%char = [""].
Proof. reflexivity. Qed.

Example Split_trailing : Go.Split ("ab" +:+ nl +:+ "c" +:+ nl) "010"%char = ["ab"; "c"; ""].
Proof. reflexivity. Qed.

Example Fields_tab : Go.Fields ("  ab" +:+ tab +:+ "refs/heads/x  y") = ["ab"; "refs/heads/x"; "y"].
Proof. reflexivity. Qed.

Example Fields_nbsp :
  Go.Fields (String "a" (String "194" (String "160" (String "b" "")))) = ["a"; "b"].
Proof. reflexivity. Qed.

Example Fields_blank : Go.Fields ("  " +:+ tab) = [].
Proof. reflexivity. Qed.

Example Contains_mid : Go.Contains "fatal: No such remote 'x'" "No such remote" = true.
Proof. reflexivity. Qed.

Example escapePath_tests :
  map escapePath [""; "normal"; ":normal"] = [""; "normal"; "\:normal"].
Proof. reflexivity. Qed.

Example LsRemote_listing :
  fst (LsRemote (printing (tipText +:+ tab +:+ "refs/heads/master" +:+ nl +:+ nl
                           +:+ " lonely " +:+ nl +:+ "a b c"))
         "https://example.com/repo.git" [] world0)
  = (Some [{| Reference.ID := tipText; Reference.Refspec := "refs/heads/master" |};
           {| Reference.ID := "a"; Reference.Refspec := "b" |}], None).
Proof. reflexivity. Qed.

Example RemoveRemote_fatal :
  fst (RepoRemoveRemote (failingWith "exit status 128 - fatal: No such remote 'x'")
         "/srv/repo" "x" [] world0)
  = Some ErrRemoteNotExist.
Proof. reflexivity. Qed.

Example parse_folds_case :
  option_map Identity.toString
    (fst (Identity.parse "4E59B72440188E7C2578299FC28EA425FBE9AECE"))
  = Some tipText.
Proof. reflexivity. Qed.

Example RevListCount_counts :
  fst (RevListCount (printing ("27" +:+ nl)) testrepo
         ["978fb7f6388b49b532fbef8b856681cfa6fcaa0a"]
         {| RevListCountOptions.Path := ""; RevListCountOptions.Timeout := 0 |} world0)
  = (27, None).
Proof. reflexivity. Qed.

(** ** Strings *)

Lemma HasPrefix_append (p s : string) : Go.HasPrefix (p +:+ s) p = true.
Proof.
  induction p as [|a p IH]; simpl.
  - reflexivity.
  - rewrite Ascii.eqb_refl. exact IH.
Qed.

Lemma HasPrefix_split (s p : string) :
  Go.HasPrefix s p = true -> exists t, s = p +:+ t.
Proof.
  revert s. induction p as [|a p IH]; intros s H.
  - exists s. reflexivity.
  - destruct s as [|b s]; simpl in H; [discriminate|].
    destruct (Ascii.eqb a b) eqn:E; [|discriminate].
    apply Ascii.eqb_eq in E. subst b.
    destruct (IH _ H) as [t ->]. exists t. reflexivity.
Qed.

Lemma Contains_here (s substr : string) :
  Go.HasPrefix s substr = true -> Go.Contains s substr = true.
Proof. intros H. destruct s; simpl in *; rewrite H; reflexivity. Qed.

Lemma Contains_later (c : ascii) (s substr : string) :
  Go.Contains s substr = true -> Go.Contains (String c s) substr = true.
Proof. intros H. simpl. rewrite H. apply orb_true_r. Qed.

(** [Go.Contains] holds exactly of the texts with [substr] somewhere inside. *)
Lemma Contains_iff (s substr : string) :
  Go.Contains s substr = true <-> exists a b, s = a +:+ substr +:+ b.
Proof.
  split.
  - induction s as [|c s IH]; simpl; intros H.
    + rewrite orb_false_r in H. apply HasPrefix_split in H as [t ->].
      exists "", t. reflexivity.
    + apply orb_true_iff in H as [H|H].
      * apply HasPrefix_split in H as [t Ht]. exists "", t. exact Ht.
      * destruct (IH H) as (a & b & ->). exists (String c a), b. reflexivity.
  - intros (a & b & ->). induction a as [|c a IH].
    + apply Contains_here. apply (HasPrefix_append substr b).
    + apply (Contains_later c). exact IH.
Qed.

(** ** Remote operations: how a failure of the tool is classified *)

Lemma RunInDirWithTimeout_run execute (tmo : Duration) (d : string) (cmd : Command) (w : World) :
  RunInDirWithTimeout execute tmo d cmd w =
  (execute {| argv := cmd; dir := d; timeout := tmo |},
   invoked w {| argv := cmd; dir := d; timeout := tmo |}).
Proof. reflexivity. Qed.

(** Names the invocation an operation has made and leaves what it did with
    the outcome. *)
Ltac the_invocation :=
  match goal with
  | |- context [invoked _ ?i] =>
      exists i; split; [reflexivity|]; split; [reflexivity|]
  end.

(** C8, as the code has it.  Each of the three operations makes one
    invocation and classifies its failure by the text: [RepoRemoveRemote]
    answers [ErrRemoteNotExist] for a text with "error: No such remote" or
    "fatal: No such remote"; [RepoRemoteURLSetFirst] for a text with
    "No such remote"; [RepoRemoteURLSetRegex] answers [ErrURLNotExist] for a
    text with "No such URL found" and [ErrRemoteNotExist] for another text
    with "No such remote".  Every other failure is handed on unchanged, and
    a success gives no error. *)
Theorem remote_failure_classification
    (execute : Invocation -> string * option Failure)
    (repoPath name newurl urlregex : string) (w : World) :
  (forall opts, exists inv,
      firstn 3 (argv inv) = ["remote"; "remove"; name] /\ dir inv = repoPath /\
      RepoRemoveRemote execute repoPath name opts w =
      (match snd (execute inv) with
       | None => None
       | Some e =>
           Some (if Go.Contains (Error e) "error: No such remote"
                    || Go.Contains (Error e) "fatal: No such remote"
                 then ErrRemoteNotExist else Raised e)
       end, invoked w inv))
  /\ (forall opts, exists inv,
      firstn 2 (argv inv) = ["remote"; "set-url"] /\ dir inv = repoPath /\
      RepoRemoteURLSetFirst execute repoPath name newurl opts w =
      (match snd (execute inv) with
       | None => None
       | Some e =>
           Some (if Go.Contains (Error e) "No such remote"
                 then ErrRemoteNotExist else Raised e)
       end, invoked w inv))
  /\ (forall opts, exists inv,
      firstn 2 (argv inv) = ["remote"; "set-url"] /\ dir inv = repoPath /\
      RepoRemoteURLSetRegex execute repoPath name urlregex newurl opts w =
      (match snd (execute inv) with
       | None => None
       | Some e =>
           Some (if Go.Contains (Error e) "No such URL found"
                 then ErrURLNotExist
                 else if Go.Contains (Error e) "No such remote"
                      then ErrRemoteNotExist else Raised e)
       end, invoked w inv)).
Proof.
  split; [|split]; intros opts.
  - unfold RepoRemoveRemote, bind. rewrite RunInDirWithTimeout_run.
    the_invocation.
    destruct (execute _) as [out [e|]]; simpl; [|reflexivity].
    destruct (_ || _); reflexivity.
  - unfold RepoRemoteURLSetFirst, bind. rewrite RunInDirWithTimeout_run.
    destruct (RemoteURLSetOptions.Push (firstOpt RemoteURLSetOptions.zero opts)).
    all: the_invocation.
    all: destruct (execute _) as [out [e|]]; simpl; [|reflexivity].
    all: destruct (Go.Contains _ _); reflexivity.
  - unfold RepoRemoteURLSetRegex, bind. rewrite RunInDirWithTimeout_run.
    destruct (RemoteURLSetOptions.Push (firstOpt RemoteURLSetOptions.zero opts)).
    all: the_invocation.
    all: destruct (execute _) as [out [e|]]; simpl; [|reflexivity].
    all: destruct (Go.Contains _ "No such URL found"); [reflexivity|].
    all: destruct (Go.Contains _ _); reflexivity.
Qed.

(** C8, as stated, fails: a failure text with "No such remote" that lacks the
    "error: " or "fatal: " of [RepoRemoveRemote] is handed on as it came, and
    [RepoRemoteURLSetRegex] answers [ErrURLNotExist] for a text that also
    has "No such URL found". *)
Lemma remote_text_not_classified :
  (Go.Contains "No such remote: origin" "No such remote" = true /\
   fst (RepoRemoveRemote (failingWith "No such remote: origin")
          "/srv/repo" "origin" [] world0)
   = Some (Raised {| Error := "No such remote: origin" |}))
  /\ (Go.Contains "No such URL found: x; No such remote: origin" "No such remote" = true /\
      fst (RepoRemoteURLSetRegex
             (failingWith "No such URL found: x; No such remote: origin")
             "/srv/repo" "origin" "x" "y" [] world0)
      = Some ErrURLNotExist).
Proof. repeat split; vm_compute; reflexivity. Qed.

(** ** [LsRemote]: from the listing to the references *)

Lemma fold_lsRemoteLine (lines : list string) (refs : list Reference.t) :
  fold_left lsRemoteLine lines refs
  = refs ++ map referenceOfLine (List.filter hasTwoFields lines).
Proof.
  revert refs. induction lines as [|line lines IH]; intros refs; simpl.
  - symmetry. apply app_nil_r.
  - rewrite IH. unfold lsRemoteLine, hasTwoFields.
    destruct (Nat.ltb_spec (length (Go.Fields line)) 2) as [Hlt|Hge].
    + replace (2 <=? length (Go.Fields line))%nat with false
        by (symmetry; apply Nat.leb_gt; exact Hlt).
      reflexivity.
    + replace (2 <=? length (Go.Fields line))%nat with true
        by (symmetry; apply Nat.leb_le; exact Hge).
      simpl. rewrite <- app_assoc. reflexivity.
Qed.

Lemma DecodeRune_space (c : ascii) (s : string) :
  Ascii.is_space c = true ->
  Go.DecodeRune (String c s) = (Go.byteval c, 1%nat) /\ Go.IsSpace (Go.byteval c) = true.
Proof.
  destruct c as [[] [] [] [] [] [] [] []]; simpl; intros H;
    try discriminate H; split; reflexivity.
Qed.

Lemma fieldsLoop_blank (s : string) (space : bool) :
  blankLine s = true -> Go.fieldsLoop s 0 space "" = [].
Proof.
  revert space. induction s as [|c s IH]; intros space H.
  - reflexivity.
  - simpl in H. apply andb_true_iff in H as [Hc Hs].
    destruct (DecodeRune_space c s Hc) as [Hd Hsp].
    change (Go.fieldsLoop (String c s) 0 space "")
      with (let '(r, size) := Go.DecodeRune (String c s) in
            if Go.IsSpace r
            then Go.closeSpan "" ++ Go.fieldsLoop s (Nat.pred size) true ""
            else Go.fieldsLoop s (Nat.pred size) false ("" +:+ String c "")).
    rewrite Hd, Hsp. simpl. apply IH. exact Hs.
Qed.

(** C10.  [LsRemote] makes one ls-remote invocation; when it succeeds the
    result is, for the lines of the output split on newlines and taken
    first to last, one reference for each line of at least two fields, its
    [ID] the first field and its [Refspec] the second; a line with fewer
    fields, a blank one among them, gives nothing. *)
Theorem LsRemote_references
    (execute : Invocation -> string * option Failure)
    (url : string) (opts : list LsRemoteOptions.t) (w : World) :
  (exists inv,
      firstn 2 (argv inv) = ["ls-remote"; "--quiet"] /\
      LsRemote execute url opts w =
      (match execute inv with
       | (_, Some e) => (None, Some (Raised e))
       | (stdout, None) =>
           (Some (map (fun line =>
                         {| Reference.ID := nth 0 (Go.Fields line) "";
                            Reference.Refspec := nth 1 (Go.Fields line) "" |})
                      (List.filter (fun line => (2 <=? length (Go.Fields line))%nat)
                                   (Go.Split stdout "010"%char))),
            None)
       end, invoked w inv))
  /\ (forall line, blankLine line = true -> length (Go.Fields line) = 0%nat).
Proof.
  split.
  - unfold LsRemote, bind, RunWithTimeout. rewrite RunInDirWithTimeout_run.
    match goal with
    | |- context [invoked _ ?i] => exists i
    end.
    split.
    + simpl argv.
      repeat match goal with
             | |- context [if ?b then _ else _] => destruct b
             end; reflexivity.
    + destruct (execute _) as [out [e|]]; simpl; [reflexivity|].
      unfold ret. rewrite fold_lsRemoteLine. reflexivity.
  - intros line H. unfold Go.Fields. rewrite fieldsLoop_blank by exact H.
    reflexivity.
Qed.

Lemma LsRemote_references_witness :
  blankLine (" " +:+ tab) = true /\ length (Go.Fields (" " +:+ tab)) = 0%nat.
Proof.
  split; [reflexivity|].
  apply (proj2 (LsRemote_references (printing "") "" [] world0)). reflexivity.
Defined.

(** ** The identity-list parser *)

Section ParserFacts.

Variable GetCommit : string -> Git (result Commit).

Lemma commitsInOrder_shape (ids : list string) (w : World) :
  (exists cs, fst (commitsInOrder GetCommit ids w) = (Some cs, None))
  \/ (exists e, fst (commitsInOrder GetCommit ids w) = (None, Some e)).
Proof.
  revert w. induction ids as [|id ids IH]; intros w; simpl.
  - left. exists []. reflexivity.
  - unfold bind. destruct (GetCommit id w) as [[c [e|]] w1]; simpl.
    + right. exists e. reflexivity.
    + specialize (IH w1).
      destruct (commitsInOrder GetCommit ids w1) as [[cs err] w2]; simpl in *.
      destruct IH as [[cs' H]|[e H]]; inversion H; subst; simpl.
      * left. eexists. reflexivity.
      * right. eexists. reflexivity.
Qed.

(** The loop with its accumulator against the lookups in order. *)
Lemma parseLoop_commitsInOrder (parts : list string) (l : list (option Commit)) (w : World) :
  parseLoop GetCommit parts l w =
  match commitsInOrder GetCommit parts w with
  | ((Some cs, None), w') => ((Some (l ++ cs), None), w')
  | other => other
  end.
Proof.
  revert l w. induction parts as [|id parts IH]; intros l w; simpl.
  - unfold ret. rewrite app_nil_r. reflexivity.
  - unfold bind. destruct (GetCommit id w) as [[c [e|]] w1]; simpl.
    + reflexivity.
    + rewrite IH.
      pose proof (commitsInOrder_shape parts w1) as Hs.
      destruct (commitsInOrder GetCommit parts w1) as [[cs err] w2]; simpl in *.
      destruct Hs as [[cs' H]|[e H]]; inversion H; subst; simpl.
      * rewrite <- app_assoc. reflexivity.
      * reflexivity.
Qed.

Lemma commitsInOrder_length (ids : list string) (w : World) (cs : list (option Commit)) :
  fst (commitsInOrder GetCommit ids w) = (Some cs, None) -> length cs = length ids.
Proof.
  revert w cs. induction ids as [|id ids IH]; intros w cs; simpl.
  - intros H. inversion H. reflexivity.
  - unfold bind. destruct (GetCommit id w) as [[c [e|]] w1]; simpl.
    + discriminate.
    + pose proof (IH w1) as IH1.
      destruct (commitsInOrder GetCommit ids w1) as [[[cs1|] [e1|]] w2];
        simpl in *; intros H; inversion H; subst.
      simpl. f_equal. apply IH1. reflexivity.
Qed.

Lemma parseLoop_valueXorError (parts : list string) (l : list (option Commit)) (w : World) :
  valueXorError (fst (parseLoop GetCommit parts l w)).
Proof.
  revert l w. induction parts as [|id parts IH]; intros l w; simpl.
  - exact I.
  - unfold bind. destruct (GetCommit id w) as [[c [e|]] w1]; simpl.
    + exact I.
    + apply IH.
Qed.

End ParserFacts.

Lemma parsePrettyFormatLogToList_unfold
    (GetCommit : string -> Git (result Commit)) (logs : string) (w : World) :
  parsePrettyFormatLogToList GetCommit logs w =
  match logs with
  | EmptyString => ((Some [], None), w)
  | _ => commitsInOrder GetCommit (Go.Split logs "010"%char) w
  end.
Proof.
  unfold parsePrettyFormatLogToList. destruct logs as [|c logs].
  - reflexivity.
  - change (Go.len (String c logs) =? 0)%nat with false. cbv iota.
    rewrite parseLoop_commitsInOrder.
    pose proof (commitsInOrder_shape GetCommit (Go.Split (String c logs) "010"%char) w) as Hs.
    destruct (commitsInOrder _ _ _) as [[cs err] w'].
    simpl in Hs. destruct Hs as [[cs' H]|[e H]]; inversion H; subst; reflexivity.
Qed.

Lemma Split_pieces (s : string) (sep : ascii) : Go.Split s sep <> [].
Proof.
  destruct s as [|c s]; simpl; [discriminate|].
  destruct (Ascii.eqb c sep); [discriminate|].
  destruct (Go.Split s sep); discriminate.
Qed.

(** A newline at the end of the input makes one more piece, the empty one. *)
Lemma Split_trailing_newline (logs : string) :
  Go.Split (logs +:+ nl) "010"%char = Go.Split logs "010"%char ++ [""].
Proof.
  induction logs as [|c logs IH]; [reflexivity|].
  change (String c logs +:+ nl) with (String c (logs +:+ nl)).
  cbn [Go.Split]. rewrite IH.
  destruct (Ascii.eqb c "010"); [reflexivity|].
  pose proof (Split_pieces logs "010"%char) as Hne.
  destruct (Go.Split logs "010"%char); [contradiction|reflexivity].
Qed.

(** C3, as the code has it.  Empty input gives the empty list and no error.
    Any other input is split on newlines and every piece, an empty one
    included, is looked up with [GetCommit], first to last: the result is
    the commits in the order of the lines, or the error of the first lookup
    that fails and no list.  A newline at the end of the input is not
    dropped: it adds the empty piece to the pieces looked up. *)
Theorem parsePrettyFormatLogToList_in_order
    (GetCommit : string -> Git (result Commit)) (logs : string) (w : World) :
  parsePrettyFormatLogToList GetCommit logs w =
  match logs with
  | EmptyString => ((Some [], None), w)
  | _ => commitsInOrder GetCommit (Go.Split logs "010"%char) w
  end
  /\ parsePrettyFormatLogToList GetCommit (logs +:+ nl) w =
     commitsInOrder GetCommit (Go.Split logs "010"%char ++ [""]) w.
Proof.
  split; [apply parsePrettyFormatLogToList_unfold|].
  rewrite parsePrettyFormatLogToList_unfold, Split_trailing_newline.
  destruct logs; reflexivity.
Qed.

(** C3, as stated, fails: with a commit in the cache, its identity alone
    parses to that commit, and the same identity followed by a newline is
    refused, because the empty piece after the newline is looked up too. *)
Lemma trailing_newline_not_ignored :
  fst (parsePrettyFormatLogToList cachedGetCommit tipText worldTip)
  = (Some [Some tipCommit], None)
  /\ fst (parsePrettyFormatLogToList cachedGetCommit (tipText +:+ nl) worldTip)
     = (None, Some ErrInvalidFormat).
Proof. split; vm_compute; reflexivity. Qed.

(** ** A value or an error, never both *)

Lemma commitsInOrder_populated
    (GetCommit : string -> Git (result Commit)) (ids : list string) :
  (forall id w c w', GetCommit id w = ((c, None), w') -> is_Some c) ->
  forall w cs, fst (commitsInOrder GetCommit ids w) = (Some cs, None) ->
               Forall is_Some cs.
Proof.
  intros Hget. induction ids as [|id ids IH]; intros w cs; simpl.
  - intros H. inversion H. constructor.
  - unfold bind. destruct (GetCommit id w) as [[c [e|]] w1] eqn:Hc; simpl.
    + discriminate.
    + pose proof (IH w1) as IH1.
      destruct (commitsInOrder GetCommit ids w1) as [[[cs1|] [e1|]] w2];
        simpl in *; intros H; inversion H; subst.
      constructor; [exact (Hget _ _ _ _ Hc)|]. apply IH1. reflexivity.
Qed.

(** When [GetCommit] never answers [(nil, nil)], a list the parser returns
    has a commit at every place. *)
Lemma parsePrettyFormatLogToList_populated
    (GetCommit : string -> Git (result Commit)) (logs : string) (w : World)
    (l : list (option Commit)) :
  (forall id w c w', GetCommit id w = ((c, None), w') -> is_Some c) ->
  fst (parsePrettyFormatLogToList GetCommit logs w) = (Some l, None) ->
  Forall is_Some l.
Proof.
  intros Hget. rewrite parsePrettyFormatLogToList_unfold.
  destruct logs as [|c logs].
  - intros H. inversion H. constructor.
  - apply commitsInOrder_populated. exact Hget.
Qed.


(** ** The identity type: parsing and printing *)

Lemma hexValue_digit (c : ascii) (n : N) :
  Identity.hexValue c = Some n ->
  (n < 16)%N /\ Identity.hexDigit n = Identity.lowerByte c.
Proof.
  destruct c as [[] [] [] [] [] [] [] []]; vm_compute; intros H;
    try discriminate H; inversion H; subst; split; reflexivity.
Qed.


Lemma byte_of_nibbles (h l : N) :
  (h < 16)%N -> (l < 16)%N ->
  (N_of_ascii (ascii_of_N (16 * h + l)) / 16 = h
   /\ N_of_ascii (ascii_of_N (16 * h + l)) mod 16 = l)%N.
Proof.
  intros Hh Hl. rewrite N_ascii_embedding by lia. split.
  - rewrite N.mul_comm, N.div_add_l by lia. rewrite N.div_small by lia. lia.
  - rewrite N.add_comm, N.mul_comm, N.Div0.mod_add. apply N.mod_small. lia.
Qed.

(** Induction on a string two characters at a time. *)
Lemma string_pair_ind (P : string -> Prop) :
  P "" -> (forall a, P (String a "")) ->
  (forall a b s, P s -> P (String a (String b s))) ->
  forall s, P s.
Proof.
  intros H0 H1 H2 s.
  assert (H : P s /\ forall a, P (String a s)).
  { induction s as [|b s [IH IH']].
    - split; [exact H0|exact H1].
    - split; [apply IH'|]. intros a. apply H2. exact IH. }
  exact (proj1 H).
Qed.

Lemma decodeHex_sound (s : string) :
  forall id, Identity.decodeHex s = Some id ->
             Identity.toString id = Identity.lowercase s
             /\ Identity.allHex s = true
             /\ Go.len s = (2 * length id)%nat.
Proof.
  induction s as [| a | a b s IH] using string_pair_ind; intros id H.
  - inversion H. repeat split.
  - discriminate H.
  - simpl in H.
    destruct (Identity.hexValue a) as [h|] eqn:Ha; [|discriminate].
    destruct (Identity.hexValue b) as [l|] eqn:Hb; [|discriminate].
    destruct (Identity.decodeHex s) as [rest|] eqn:Hs; [|discriminate].
    inversion H; subst id. clear H.
    destruct (IH rest eq_refl) as (Hstr & Hall & Hlen).
    destruct (hexValue_digit a h Ha) as [Hh Hda].
    destruct (hexValue_digit b l Hb) as [Hl Hdb].
    destruct (byte_of_nibbles h l Hh Hl) as [Hdiv Hmod].
    split; [|split].
    + cbn [Identity.toString Identity.lowercase].
      rewrite Hdiv, Hmod, Hda, Hdb, Hstr. reflexivity.
    + cbn [Identity.allHex]. unfold Identity.isHex. rewrite Ha, Hb, Hall. reflexivity.
    + unfold Go.len in *. cbn [String.length length]. lia.
Qed.

Lemma decodeHex_complete (s : string) :
  Identity.allHex s = true -> Nat.Even (Go.len s) ->
  exists id, Identity.decodeHex s = Some id.
Proof.
  induction s as [| a | a b s IH] using string_pair_ind; intros Hall Hev.
  - exists []. reflexivity.
  - destruct Hev as [k Hk]. unfold Go.len in Hk. simpl in Hk. lia.
  - cbn [Identity.allHex] in Hall.
    apply andb_true_iff in Hall as [Ha Hall].
    apply andb_true_iff in Hall as [Hb Hall].
    unfold Identity.isHex in Ha, Hb.
    destruct (Identity.hexValue a) as [h|] eqn:Eh; [|discriminate].
    destruct (Identity.hexValue b) as [l|] eqn:El; [|discriminate].
    destruct IH as [rest Hrest]; [exact Hall| |].
    + destruct Hev as [k Hk]. unfold Go.len in *. simpl in Hk.
      exists (k - 1)%nat. lia.
    + exists (ascii_of_N (16 * h + l) :: rest). simpl.
      rewrite Eh, El, Hrest. reflexivity.
Qed.

(** C4.  A string of exactly 40 hex characters parses, and the identity
    prints as that string in lower case; any other string is refused with
    [ErrInvalidFormat]. *)
Theorem Identity_parse_toString (s : string) :
  (Identity.is40Hex s = true ->
   exists id, Identity.parse s = (Some id, None)
              /\ Identity.toString id = Identity.lowercase s
              /\ length id = 20%nat)
  /\ (Identity.is40Hex s = false ->
      Identity.parse s = (None, Some ErrInvalidFormat)).
Proof.
  unfold Identity.is40Hex, Identity.parse. split; intros H.
  - apply andb_true_iff in H as [Hlen Hall].
    rewrite Hlen. simpl negb. cbv iota.
    apply Nat.eqb_eq in Hlen.
    destruct (decodeHex_complete s Hall) as [id Hid].
    { exists 20%nat. rewrite Hlen. reflexivity. }
    rewrite Hid. exists id.
    destruct (decodeHex_sound s id Hid) as (Hstr & _ & Hl).
    repeat split; [exact Hstr|lia].
  - destruct (Go.len s =? 40)%nat; [|reflexivity]. simpl in *.
    destruct (Identity.decodeHex s) as [id|] eqn:Hid; [|reflexivity].
    destruct (decodeHex_sound s id Hid) as (_ & Hall & _). congruence.
Qed.

Lemma Identity_parse_toString_witness :
  (exists id, Identity.parse tipText = (Some id, None)
              /\ Identity.toString id = Identity.lowercase tipText
              /\ length id = 20%nat)
  /\ Identity.parse "404" = (None, Some ErrInvalidFormat).
Proof.
  split.
  - apply (proj1 (Identity_parse_toString tipText)). reflexivity.
  - apply (proj2 (Identity_parse_toString "404")). reflexivity.
Defined.




(** ** Path escaping *)

(** C5.  [escapePath] keeps the empty path, keeps a path that does not begin
    with a colon, and puts one backslash before a path that does, the rest
    of it untouched. *)
Theorem escapePath_leading_colon :
  escapePath "" = ""
  /\ (forall path, Go.HasPrefix path ":" = false -> escapePath path = path)
  /\ (forall rest, escapePath (":" +:+ rest) = "\:" +:+ rest)
  /\ escapePath "normal" = "normal"
  /\ escapePath ":normal" = "\:normal".
Proof.
  repeat split.
  intros path H. destruct path as [|c path]; [reflexivity|].
  unfold escapePath. simpl in *.
  destruct (Ascii.eqb_spec ":"%char c) as [<-|Hc]; [discriminate H|].
  destruct c as [[] [] [] [] [] [] [] []]; try reflexivity.
  contradiction Hc. reflexivity.
Qed.

Lemma escapePath_leading_colon_witness :
  Go.HasPrefix "src/main" ":" = false /\ escapePath "src/main" = "src/main".
Proof.
  split; [reflexivity|].
  apply (proj1 (proj2 escapePath_leading_colon)). reflexivity.
Defined.

(** ** The traversal operations *)

Section OperationFacts.

Variable execute : Invocation -> string * option Failure.
Variable commitRecordCommand : sha1 -> Command.
Variable parseCommitRecord : string -> option Commit.
Variable repo : Repository.


(** The cache keeps naming each commit by its own identity. *)
Lemma lookupOrParse_cache (id : sha1) (w : World) :
  (forall record c, parseCommitRecord record = Some c -> ID c = id) ->
  (forall k c, commitCache w !! k = Some c -> ID c = k) ->
  forall k c,
    commitCache (snd (lookupOrParse execute commitRecordCommand parseCommitRecord
                        repo id w)) !! k = Some c ->
    ID c = k.
Proof.
  intros Hparse Hinv k c. unfold lookupOrParse, bind.
  destruct (commitCache w !! id) as [c0|] eqn:Hc; [apply Hinv|].
  rewrite RunInDirWithTimeout_run.
  destruct (execute _) as [out [e|]]; [apply Hinv|].
  destruct (parseCommitRecord out) as [c1|] eqn:Hp; [|apply Hinv].
  simpl. destruct (decide (id = k)) as [<-|Hne].
  - rewrite lookup_insert_eq. intros H. inversion H; subst.
    exact (Hparse _ _ Hp).
  - rewrite lookup_insert_ne by exact Hne. apply Hinv.
Qed.

End OperationFacts.


(** C2.  On an empty refspec collection [RevListCount] and [RevList] return
    the error "must have at least one refspec" and leave the world as it
    was: nothing has been run. *)
Theorem RevList_empty_refspecs
    (execute : Invocation -> string * option Failure)
    (commitRecordCommand : sha1 -> Command)
    (parseCommitRecord : string -> option Commit)
    (repo : Repository) (w : World) :
  (forall opt,
      RevListCount execute repo [] opt w
      = ((0, Some (errors_New "must have at least one refspec")), w))
  /\ (forall opt,
         RevList execute commitRecordCommand parseCommitRecord repo [] opt w
         = ((None, Some (errors_New "must have at least one refspec")), w))
  /\ (forall opt,
         invocations (snd (RevListCount execute repo [] opt w)) = invocations w)
  /\ (forall opt,
         invocations (snd (RevList execute commitRecordCommand parseCommitRecord
                             repo [] opt w)) = invocations w).
Proof. repeat split. Qed.

(** C6.  [CommitsSince] with a time bound and a path filter returns what
    [Log] returns with that bound as [Since], that filter and no pagination:
    the same result, the same invocation, the same cache afterwards. *)
Theorem CommitsSince_is_Log
    (execute : Invocation -> string * option Failure)
    (commitRecordCommand : sha1 -> Command)
    (parseCommitRecord : string -> option Commit)
    (repo : Repository) (rev : string) (since : Z)
    (opt : CommitsSinceOptions.t) (w : World) :
  CommitsSince execute commitRecordCommand parseCommitRecord repo rev since opt w
  = Log execute commitRecordCommand parseCommitRecord repo rev
      {| LogOptions.Since := Some since;
         LogOptions.Path := CommitsSinceOptions.Path opt;
         LogOptions.Skip := 0;
         LogOptions.Limit := 0;
         LogOptions.Timeout := CommitsSinceOptions.Timeout opt |} w.
Proof. reflexivity. Qed.

(** ** Name-only diffs *)

Lemma parseNameOnly_lines (stdout line : string) :
  In line (parseNameOnly stdout) <->
  In line (Go.Split stdout "010"%char) /\ line <> "".
Proof.
  unfold parseNameOnly. rewrite filter_In.
  destruct line; simpl; intuition congruence.
Qed.


(** ** Further properties of the remote operations *)

Lemma append_assoc3 (a b c : string) : (a +:+ b) +:+ c = a +:+ (b +:+ c).
Proof. induction a as [|x a IH]; simpl; [reflexivity|]. rewrite IH. reflexivity. Qed.

(** A text that contains a phrase contains the end of the phrase. *)
Lemma Contains_suffix_of_phrase (s p q : string) :
  Go.Contains s (p +:+ q) = true -> Go.Contains s q = true.
Proof.
  intros H. apply Contains_iff in H as (a & b & ->).
  apply Contains_iff. exists (a +:+ p), b.
  rewrite !append_assoc3. reflexivity.
Qed.

(** Splits on the outcome of the one run an operation makes, then on the
    tests the operation makes on it. *)
Ltac by_outcome :=
  try match goal with
      | |- context [?f {| argv := ?a; dir := ?d; timeout := ?t |}] =>
          destruct (f {| argv := a; dir := d; timeout := t |}) as [? [?|]]
      end;
  cbn [fst snd option_map ret];
  repeat match goal with
         | |- context [if ?b then _ else _] => destruct b
         end;
  cbn [fst snd option_map ret].

Ltac run_once :=
  intros; intro; cbv beta delta [bind RunWithTimeout RunInDir];
  rewrite RunInDirWithTimeout_run;
  match goal with
  | |- context [invoked _ ?i] => exists i
  end;
  split; [by_outcome; reflexivity | split; reflexivity].

(** X1.  Each remote operation, and each of [Pull], [Push] and [Reset], runs
    the tool exactly once, in the repository's directory ([LsRemote] and
    [IsURLAccessible]: in no directory) and under the timeout of its first
    option (the runner's own for [Pull], [Push] and [Reset]); it leaves the
    commit cache as it was. *)
Theorem operations_run_once
    (execute : Invocation -> string * option Failure)
    (stdoutToStringSlice : string -> list string) (runnerTimeout : Duration)
    (repoPath name url newurl urlregex remote branch revision : string) :
  (forall opts, runsOnce (LsRemote execute url opts) ""
                  (LsRemoteOptions.Timeout (firstOpt LsRemoteOptions.zero opts)))
  /\ (forall tmo, runsOnce (IsURLAccessible execute tmo url) "" tmo)
  /\ (forall opts, runsOnce (RepoAddRemote execute repoPath name url opts) repoPath
                     (AddRemoteOptions.Timeout (firstOpt AddRemoteOptions.zero opts)))
  /\ (forall opts, runsOnce (RepoRemoveRemote execute repoPath name opts) repoPath
                     (RemoveRemoteOptions.Timeout (firstOpt RemoveRemoteOptions.zero opts)))
  /\ (forall opts, runsOnce (RepoRemotesList execute stdoutToStringSlice repoPath opts)
                     repoPath
                     (RemotesListOptions.Timeout (firstOpt RemotesListOptions.zero opts)))
  /\ (forall opts, runsOnce (RepoRemoteURLGet execute stdoutToStringSlice repoPath name opts)
                     repoPath
                     (RemoteURLGetOptions.Timeout (firstOpt RemoteURLGetOptions.zero opts)))
  /\ (forall opts, runsOnce (RepoRemoteURLSetFirst execute repoPath name newurl opts)
                     repoPath
                     (RemoteURLSetOptions.Timeout (firstOpt RemoteURLSetOptions.zero opts)))
  /\ (forall opts, runsOnce (RepoRemoteURLSetRegex execute repoPath name urlregex newurl opts)
                     repoPath
                     (RemoteURLSetOptions.Timeout (firstOpt RemoteURLSetOptions.zero opts)))
  /\ (forall opts, runsOnce (RepoRemoteURLAdd execute repoPath name newurl opts) repoPath
                     (RemoteURLSetOptions.Timeout (firstOpt RemoteURLSetOptions.zero opts)))
  /\ (forall opts, runsOnce (RepoRemoteURLDelRegex execute repoPath name urlregex opts)
                     repoPath
                     (RemoteURLSetOptions.Timeout (firstOpt RemoteURLSetOptions.zero opts)))
  /\ (forall all, runsOnce (Pull execute runnerTimeout repoPath all) repoPath runnerTimeout)
  /\ runsOnce (Push execute runnerTimeout repoPath remote branch) repoPath runnerTimeout
  /\ (forall hard, runsOnce (Reset execute runnerTimeout repoPath hard revision)
                            repoPath runnerTimeout).
Proof.
  repeat split.
  - unfold LsRemote. run_once.
  - unfold IsURLAccessible, LsRemote. run_once.
  - unfold RepoAddRemote. run_once.
  - unfold RepoRemoveRemote. run_once.
  - unfold RepoRemotesList. run_once.
  - unfold RepoRemoteURLGet. run_once.
  - unfold RepoRemoteURLSetFirst. run_once.
  - unfold RepoRemoteURLSetRegex. run_once.
  - unfold RepoRemoteURLAdd. run_once.
  - unfold RepoRemoteURLDelRegex. run_once.
  - unfold Pull. run_once.
  - unfold Push. run_once.
  - unfold Reset. run_once.
Qed.

(** X2.  [IsURLAccessible] runs ls-remote once for the pattern HEAD of the
    URL, in no directory and under the given timeout, and answers whether
    that run succeeded; what the run printed plays no part. *)
Theorem IsURLAccessible_outcome
    (execute : Invocation -> string * option Failure)
    (tmo : Duration) (url : string) (w : World) :
  IsURLAccessible execute tmo url w =
  (match snd (execute {| argv := ["ls-remote"; "--quiet"; url; "HEAD"];
                         dir := ""; timeout := tmo |}) with
   | None => true
   | Some _ => false
   end,
   invoked w {| argv := ["ls-remote"; "--quiet"; url; "HEAD"];
                dir := ""; timeout := tmo |}).
Proof.
  unfold IsURLAccessible, LsRemote, bind, RunWithTimeout.
  rewrite RunInDirWithTimeout_run. simpl.
  destruct (execute _) as [out [e|]]; reflexivity.
Qed.

Ltac reports :=
  intros; intro; cbv beta delta [bind RunWithTimeout RunInDir];
  rewrite RunInDirWithTimeout_run;
  match goal with
  | |- context [invoked _ ?i] => exists i
  end;
  split; [by_outcome; reflexivity |];
  by_outcome; split; intros H; (reflexivity || discriminate H).

(** X3.  No operation swallows a failure of the tool and none invents one:
    each returns an error exactly when its one run of the tool failed. *)
Theorem error_iff_tool_failed
    (execute : Invocation -> string * option Failure)
    (stdoutToStringSlice : string -> list string) (runnerTimeout : Duration)
    (repoPath name url newurl urlregex remote branch revision : string) :
  (forall opts, reportsToolFailure execute snd (LsRemote execute url opts))
  /\ (forall opts, reportsToolFailure execute id
                     (RepoAddRemote execute repoPath name url opts))
  /\ (forall opts, reportsToolFailure execute id
                     (RepoRemoveRemote execute repoPath name opts))
  /\ (forall opts, reportsToolFailure execute snd
                     (RepoRemotesList execute stdoutToStringSlice repoPath opts))
  /\ (forall opts, reportsToolFailure execute snd
                     (RepoRemoteURLGet execute stdoutToStringSlice repoPath name opts))
  /\ (forall opts, reportsToolFailure execute id
                     (RepoRemoteURLSetFirst execute repoPath name newurl opts))
  /\ (forall opts, reportsToolFailure execute id
                     (RepoRemoteURLSetRegex execute repoPath name urlregex newurl opts))
  /\ (forall opts, reportsToolFailure execute id
                     (RepoRemoteURLAdd execute repoPath name newurl opts))
  /\ (forall opts, reportsToolFailure execute id
                     (RepoRemoteURLDelRegex execute repoPath name urlregex opts))
  /\ (forall all, reportsToolFailure execute id (Pull execute runnerTimeout repoPath all))
  /\ reportsToolFailure execute id (Push execute runnerTimeout repoPath remote branch)
  /\ (forall hard, reportsToolFailure execute id
                     (Reset execute runnerTimeout repoPath hard revision)).
Proof.
  repeat apply conj.
  - unfold LsRemote. reports.
  - unfold RepoAddRemote. reports.
  - unfold RepoRemoveRemote. reports.
  - unfold RepoRemotesList. reports.
  - unfold RepoRemoteURLGet. reports.
  - unfold RepoRemoteURLSetFirst. reports.
  - unfold RepoRemoteURLSetRegex. reports.
  - unfold RepoRemoteURLAdd. reports.
  - unfold RepoRemoteURLDelRegex. reports.
  - unfold Pull. reports.
  - unfold Push. reports.
  - unfold Reset. reports.
Qed.

Lemma orb_phrase (s : string) :
  Go.Contains s "error: No such remote" || Go.Contains s "fatal: No such remote" = true ->
  Go.Contains s "No such remote" = true.
Proof.
  intros H. apply orb_true_iff in H as [H|H].
  - exact (Contains_suffix_of_phrase s "error: " "No such remote" H).
  - exact (Contains_suffix_of_phrase s "fatal: " "No such remote" H).
Qed.

Ltac accounted :=
  intros; intros w err; cbv beta delta [bind RunWithTimeout RunInDir];
  rewrite RunInDirWithTimeout_run;
  match goal with
  | |- context [?ex ?i] =>
      lazymatch type of (ex i) with
      | (string * option Failure)%type => idtac
      end;
      destruct (ex i) as [out [f|]] eqn:Hrun;
      cbn [fst snd option_map ret id];
      [ | intros H; discriminate H ];
      repeat match goal with
             | |- context [if ?b then _ else _] =>
                 lazymatch b with
                 | context [Go.Contains] => destruct b eqn:?
                 end
             end;
      cbn [fst snd option_map ret id];
      intros H; inversion H; subst err;
      exists i, f; rewrite Hrun;
      (split; [reflexivity | split; [reflexivity |]]);
      cbn [accountsFor]; auto using orb_phrase
  end.

(** X4.  Every error an operation returns is accounted for by the failure of
    its one run of the tool: it is that failure handed on unchanged, or it
    is [ErrRemoteNotExist], [ErrURLNotExist] or [ErrDelAllNonPushURL] and
    the text of the failure contains "No such remote", "No such URL found"
    or "Will not delete all non-push URLs". *)
Theorem errors_accounted_for
    (execute : Invocation -> string * option Failure)
    (stdoutToStringSlice : string -> list string) (runnerTimeout : Duration)
    (repoPath name url newurl urlregex remote branch revision : string) :
  (forall opts, errorsAccounted execute snd (LsRemote execute url opts))
  /\ (forall opts, errorsAccounted execute id
                     (RepoAddRemote execute repoPath name url opts))
  /\ (forall opts, errorsAccounted execute id
                     (RepoRemoveRemote execute repoPath name opts))
  /\ (forall opts, errorsAccounted execute snd
                     (RepoRemotesList execute stdoutToStringSlice repoPath opts))
  /\ (forall opts, errorsAccounted execute snd
                     (RepoRemoteURLGet execute stdoutToStringSlice repoPath name opts))
  /\ (forall opts, errorsAccounted execute id
                     (RepoRemoteURLSetFirst execute repoPath name newurl opts))
  /\ (forall opts, errorsAccounted execute id
                     (RepoRemoteURLSetRegex execute repoPath name urlregex newurl opts))
  /\ (forall opts, errorsAccounted execute id
                     (RepoRemoteURLAdd execute repoPath name newurl opts))
  /\ (forall opts, errorsAccounted execute id
                     (RepoRemoteURLDelRegex execute repoPath name urlregex opts))
  /\ (forall all, errorsAccounted execute id (Pull execute runnerTimeout repoPath all))
  /\ errorsAccounted execute id (Push execute runnerTimeout repoPath remote branch)
  /\ (forall hard, errorsAccounted execute id
                     (Reset execute runnerTimeout repoPath hard revision)).
Proof.
  repeat apply conj.
  - unfold LsRemote. accounted.
  - unfold RepoAddRemote. accounted.
  - unfold RepoRemoveRemote. accounted.
  - unfold RepoRemotesList. accounted.
  - unfold RepoRemoteURLGet. accounted.
  - unfold RepoRemoteURLSetFirst. accounted.
  - unfold RepoRemoteURLSetRegex. accounted.
  - unfold RepoRemoteURLAdd. accounted.
  - unfold RepoRemoteURLDelRegex. accounted.
  - unfold Pull. accounted.
  - unfold Push. accounted.
  - unfold Reset. accounted.
Qed.

Lemma errors_accounted_for_witness :
  exists inv f,
    snd (RepoRemoveRemote remoteTool "/srv/repo" "origin" [] world0) = invoked world0 inv
    /\ snd (remoteTool inv) = Some f
    /\ accountsFor f ErrRemoteNotExist.
Proof.
  apply (proj1 (proj2 (proj2
           (errors_accounted_for remoteTool (fun _ => []) 0
              "/srv/repo" "origin" "" "" "" "" "" ""))) [] world0 ErrRemoteNotExist).
  reflexivity.
Defined.

(** X5.  [RepoRemoteURLDelRegex] answers [ErrDelAllNonPushURL] exactly when
    its run of the tool failed with a text that contains "Will not delete
    all non-push URLs". *)
Theorem RepoRemoteURLDelRegex_refusal
    (execute : Invocation -> string * option Failure)
    (repoPath name urlregex : string) (opts : list RemoteURLSetOptions.t) (w : World) :
  exists inv,
    snd (RepoRemoteURLDelRegex execute repoPath name urlregex opts w) = invoked w inv
    /\ (fst (RepoRemoteURLDelRegex execute repoPath name urlregex opts w)
        = Some ErrDelAllNonPushURL
        <-> exists f, snd (execute inv) = Some f
                      /\ Go.Contains (Error f) "Will not delete all non-push URLs" = true).
Proof.
  unfold RepoRemoteURLDelRegex, bind. rewrite RunInDirWithTimeout_run.
  match goal with
  | |- context [invoked _ ?i] => exists i; destruct (execute i) as [out [f|]]
  end; cbn [fst snd ret].
  - destruct (Go.Contains (Error f) _) eqn:Hc; cbn [fst snd].
    + split; [reflexivity|]. split; [intros _; exists f; split; [reflexivity|exact Hc]|reflexivity].
    + split; [reflexivity|]. split; [discriminate|].
      intros (f' & Hf & Hc'). inversion Hf; subst f'. congruence.
  - split; [reflexivity|]. split; [discriminate|].
    intros (f' & Hf & _). discriminate Hf.
Qed.

(** Of the options passed to an operation only the first counts: any
    further ones change nothing, and none at all is the zero value. *)
Lemma only_first_option_counts
    (execute : Invocation -> string * option Failure)
    (stdoutToStringSlice : string -> list string)
    (repoPath name url newurl urlregex : string) :
  (forall opt rest,
      LsRemote execute url (opt :: rest) = LsRemote execute url [opt])
  /\ LsRemote execute url [] = LsRemote execute url [LsRemoteOptions.zero]
  /\ (forall opt rest,
         RepoAddRemote execute repoPath name url (opt :: rest)
         = RepoAddRemote execute repoPath name url [opt])
  /\ RepoAddRemote execute repoPath name url []
     = RepoAddRemote execute repoPath name url [AddRemoteOptions.zero]
  /\ (forall opt rest,
         RepoRemoveRemote execute repoPath name (opt :: rest)
         = RepoRemoveRemote execute repoPath name [opt])
  /\ RepoRemoveRemote execute repoPath name []
     = RepoRemoveRemote execute repoPath name [RemoveRemoteOptions.zero]
  /\ (forall opt rest,
         RepoRemotesList execute stdoutToStringSlice repoPath (opt :: rest)
         = RepoRemotesList execute stdoutToStringSlice repoPath [opt])
  /\ (forall opt rest,
         RepoRemoteURLGet execute stdoutToStringSlice repoPath name (opt :: rest)
         = RepoRemoteURLGet execute stdoutToStringSlice repoPath name [opt])
  /\ (forall opt rest,
         RepoRemoteURLSetFirst execute repoPath name newurl (opt :: rest)
         = RepoRemoteURLSetFirst execute repoPath name newurl [opt])
  /\ (forall opt rest,
         RepoRemoteURLSetRegex execute repoPath name urlregex newurl (opt :: rest)
         = RepoRemoteURLSetRegex execute repoPath name urlregex newurl [opt])
  /\ (forall opt rest,
         RepoRemoteURLAdd execute repoPath name newurl (opt :: rest)
         = RepoRemoteURLAdd execute repoPath name newurl [opt])
  /\ (forall opt rest,
         RepoRemoteURLDelRegex execute repoPath name urlregex (opt :: rest)
         = RepoRemoteURLDelRegex execute repoPath name urlregex [opt]).
Proof. repeat split. Qed.

(** ** Further properties of [LsRemote] *)

Lemma append_empty_r (s : string) : s +:+ "" = s.
Proof. induction s as [|c s IH]; simpl; [reflexivity|]. rewrite IH. reflexivity. Qed.

(** Splitting around a separator that stands between two texts. *)
Lemma Split_around (a b : string) (sep : ascii) :
  Go.Split (a +:+ String sep b) sep = Go.Split a sep ++ Go.Split b sep.
Proof.
  induction a as [|c a IH].
  - simpl. rewrite Ascii.eqb_refl. reflexivity.
  - change (String c a +:+ String sep b) with (String c (a +:+ String sep b)).
    cbn [Go.Split]. rewrite IH.
    destruct (Ascii.eqb c sep); [reflexivity|].
    pose proof (Split_pieces a sep) as Hne.
    destruct (Go.Split a sep); [contradiction|reflexivity].
Qed.

(** One piece more than there are separators. *)
Lemma Split_length (s : string) (sep : ascii) :
  length (Go.Split s sep) = S (countByte sep s).
Proof.
  induction s as [|c s IH]; [reflexivity|].
  cbn [Go.Split countByte].
  destruct (Ascii.eqb c sep); simpl.
  - rewrite IH. reflexivity.
  - pose proof (Split_pieces s sep) as Hne.
    destruct (Go.Split s sep); [contradiction|]. simpl in *. exact IH.
Qed.

Lemma Split_whole (s : string) (sep : ascii) :
  countByte sep s = 0%nat -> Go.Split s sep = [s].
Proof.
  induction s as [|c s IH]; [reflexivity|].
  cbn [Go.Split countByte]. destruct (Ascii.eqb c sep); [discriminate|].
  intros H. rewrite (IH H). reflexivity.
Qed.

(** What [LsRemote] returns, by the outcome of its run. *)
Lemma LsRemote_outcome
    (execute : Invocation -> string * option Failure)
    (url : string) (opts : list LsRemoteOptions.t) (w : World) :
  exists inv,
    LsRemote execute url opts w =
    (match execute inv with
     | (_, Some e) => (None, Some (Raised e))
     | (stdout, None) => (Some (referencesOf stdout), None)
     end, invoked w inv).
Proof.
  unfold LsRemote, bind, RunWithTimeout. rewrite RunInDirWithTimeout_run.
  match goal with
  | |- context [invoked _ ?i] => exists i; destruct (execute i) as [out [e|]]
  end; [reflexivity|].
  unfold ret, referencesOf. rewrite fold_lsRemoteLine. reflexivity.
Qed.

Lemma referencesOf_length (stdout : string) :
  (length (referencesOf stdout) <= S (countByte "010" stdout))%nat.
Proof.
  unfold referencesOf. rewrite length_map, <- Split_length.
  apply List.filter_length_le.
Qed.

(** X6.  A listing never gives more references than it has lines: at most
    one more than the newlines of the output. *)
Theorem LsRemote_at_most_one_per_line
    (execute : Invocation -> string * option Failure)
    (url : string) (opts : list LsRemoteOptions.t) (w : World)
    (refs : list Reference.t) :
  fst (LsRemote execute url opts w) = (Some refs, None) ->
  exists inv stdout,
    execute inv = (stdout, None)
    /\ snd (LsRemote execute url opts w) = invoked w inv
    /\ (length refs <= S (countByte "010" stdout))%nat.
Proof.
  destruct (LsRemote_outcome execute url opts w) as [inv ->].
  destruct (execute inv) as [out [e|]] eqn:Hrun; cbn [fst snd]; intros H; inversion H.
  exists inv, out. rewrite Hrun. repeat split. apply referencesOf_length.
Qed.

Lemma LsRemote_at_most_one_per_line_witness :
  exists inv stdout,
    printing (tipText +:+ tab +:+ "HEAD" +:+ nl) inv = (stdout, None)
    /\ snd (LsRemote (printing (tipText +:+ tab +:+ "HEAD" +:+ nl)) "origin" [] world0)
       = invoked world0 inv
    /\ (length [{| Reference.ID := tipText; Reference.Refspec := "HEAD" |}]
        <= S (countByte "010" stdout))%nat.
Proof.
  apply (LsRemote_at_most_one_per_line
           (printing (tipText +:+ tab +:+ "HEAD" +:+ nl)) "origin" [] world0).
  reflexivity.
Defined.

(** *** The fields of a line *)

Lemma high_byte_not_space (c : ascii) :
  128 <= Go.byteval c -> Ascii.is_space c = false.
Proof.
  destruct c as [[] [] [] [] [] [] [] []]; intros H; try reflexivity;
    vm_compute in H; contradiction H; reflexivity.
Qed.

Lemma inRange_high (lo hi b : Z) :
  128 <= lo -> Go.inRange lo hi b = true -> 128 <= b.
Proof. unfold Go.inRange. intros Hlo H. apply andb_true_iff in H as [H _]. lia. Qed.

(** The bytes [DecodeRune] counts into a rune after the first are
    continuation bytes: none of them is ASCII white space. *)
Lemma DecodeRune_tail (c : ascii) (s : string) (r : Z) (size : nat) :
  Go.DecodeRune (String c s) = (r, size) -> highBytes (Nat.pred size) s.
Proof.
  unfold Go.DecodeRune.
  set (p0 := Go.byteval c).
  destruct (p0 <? 128); [intros H; inversion H; exact I|].
  destruct ((p0 <? 194) || (244 <? p0)); [intros H; inversion H; exact I|].
  set (lo := if p0 =? 224 then 160 else if p0 =? 240 then 144 else 128).
  set (hi := if p0 =? 237 then 159 else if p0 =? 244 then 143 else 191).
  assert (Hlo : 128 <= lo).
  { unfold lo. destruct (p0 =? 224), (p0 =? 240); lia. }
  set (sz := if p0 <? 224 then 2%nat else if p0 <? 240 then 3%nat else 4%nat).
  destruct (Go.len (String c s) <? sz)%nat; [intros H; inversion H; exact I|].
  destruct s as [|c1 s]; [intros H; inversion H; exact I|].
  destruct (Go.inRange lo hi (Go.byteval c1)) eqn:H1; cbn [negb];
    [|intros H; inversion H; exact I].
  pose proof (high_byte_not_space c1 (inRange_high _ _ _ Hlo H1)) as Hc1.
  destruct (sz <=? 2)%nat; [intros H; inversion H; simpl; auto|].
  destruct s as [|c2 s]; [intros H; inversion H; exact I|].
  destruct (Go.inRange 128 191 (Go.byteval c2)) eqn:H2; cbn [negb];
    [|intros H; inversion H; exact I].
  pose proof (high_byte_not_space c2 (inRange_high 128 _ _ ltac:(lia) H2)) as Hc2.
  destruct (sz <=? 3)%nat; [intros H; inversion H; simpl; auto|].
  destruct s as [|c3 s]; [intros H; inversion H; exact I|].
  destruct (Go.inRange 128 191 (Go.byteval c3)) eqn:H3; cbn [negb];
    [|intros H; inversion H; exact I].
  pose proof (high_byte_not_space c3 (inRange_high 128 _ _ ltac:(lia) H3)) as Hc3.
  intros H; inversion H; simpl; auto.
Qed.

Lemma rune_of_space (c : ascii) (s : string) (r : Z) (size : nat) :
  Go.DecodeRune (String c s) = (r, size) -> Go.IsSpace r = false ->
  Ascii.is_space c = false.
Proof.
  intros Hd Hr. destruct (Ascii.is_space c) eqn:Hc; [|reflexivity].
  destruct (DecodeRune_space c s Hc) as [Hd' Hs]. congruence.
Qed.

Lemma spaceFree_snoc (cur : string) (c : ascii) :
  spaceFree cur = true -> Ascii.is_space c = false ->
  spaceFree (cur +:+ String c "") = true.
Proof.
  intros Hcur Hc. induction cur as [|b cur IH]; simpl in *.
  - rewrite Hc. reflexivity.
  - apply andb_true_iff in Hcur as [Hb Hcur]. rewrite Hb, (IH Hcur). reflexivity.
Qed.

Lemma closeSpan_fields (cur : string) :
  spaceFree cur = true -> Forall isField (Go.closeSpan cur).
Proof.
  intros H. destruct cur as [|c cur]; simpl; constructor; [|constructor].
  split; [discriminate|exact H].
Qed.

Lemma fieldsLoop_fields (s : string) :
  forall skip space cur,
    highBytes skip s -> spaceFree cur = true ->
    Forall isField (Go.fieldsLoop s skip space cur).
Proof.
  induction s as [|c s IH]; intros skip space cur Hskip Hcur.
  - apply closeSpan_fields. exact Hcur.
  - destruct skip as [|k].
    + change (Go.fieldsLoop (String c s) 0 space cur)
        with (let '(r, size) := Go.DecodeRune (String c s) in
              if Go.IsSpace r
              then Go.closeSpan cur ++ Go.fieldsLoop s (Nat.pred size) true ""
              else Go.fieldsLoop s (Nat.pred size) false (cur +:+ String c "")).
      destruct (Go.DecodeRune (String c s)) as [r size] eqn:Hd.
      pose proof (DecodeRune_tail c s r size Hd) as Htail.
      destruct (Go.IsSpace r) eqn:Hr.
      * apply Forall_app. split; [apply closeSpan_fields; exact Hcur|].
        apply IH; [exact Htail|reflexivity].
      * apply IH; [exact Htail|].
        apply spaceFree_snoc; [exact Hcur|].
        exact (rune_of_space c s r size Hd Hr).
    + destruct Hskip as [Hc Hk]. cbn [Go.fieldsLoop].
      destruct space.
      * apply IH; assumption.
      * apply IH; [exact Hk|]. apply spaceFree_snoc; assumption.
Qed.

(** Every field of a line has a byte at least and no ASCII white space. *)
Lemma Fields_fields (line : string) : Forall isField (Go.Fields line).
Proof. apply fieldsLoop_fields; [exact I|reflexivity]. Qed.

Lemma nth_field (fields : list string) (i : nat) :
  Forall isField fields -> (i < length fields)%nat -> isField (nth i fields "").
Proof.
  intros Hall Hi. rewrite List.Forall_forall in Hall.
  apply Hall. apply nth_In. exact Hi.
Qed.

Lemma referencesOf_fields (stdout : string) (r : Reference.t) :
  In r (referencesOf stdout) ->
  isField (Reference.ID r) /\ isField (Reference.Refspec r).
Proof.
  unfold referencesOf. rewrite in_map_iff. intros (line & <- & Hin).
  apply filter_In in Hin as [_ Htwo].
  unfold hasTwoFields in Htwo. apply Nat.leb_le in Htwo.
  unfold referenceOfLine. cbn [Reference.ID Reference.Refspec].
  split; apply nth_field; try apply Fields_fields; lia.
Qed.

(** X7.  Every reference [LsRemote] returns has an [ID] and a [Refspec] of
    one byte at least and with no ASCII white space in them. *)
Theorem LsRemote_references_are_fields
    (execute : Invocation -> string * option Failure)
    (url : string) (opts : list LsRemoteOptions.t) (w : World)
    (refs : list Reference.t) (r : Reference.t) :
  fst (LsRemote execute url opts w) = (Some refs, None) ->
  In r refs ->
  (Reference.ID r <> "" /\ spaceFree (Reference.ID r) = true)
  /\ (Reference.Refspec r <> "" /\ spaceFree (Reference.Refspec r) = true).
Proof.
  destruct (LsRemote_outcome execute url opts w) as [inv ->].
  destruct (execute inv) as [out [e|]]; cbn [fst]; intros H; inversion H; subst refs.
  apply referencesOf_fields.
Qed.

Lemma LsRemote_references_are_fields_witness :
  (Reference.ID {| Reference.ID := "a"; Reference.Refspec := "b" |} <> ""
   /\ spaceFree (Reference.ID {| Reference.ID := "a"; Reference.Refspec := "b" |}) = true)
  /\ (Reference.Refspec {| Reference.ID := "a"; Reference.Refspec := "b" |} <> ""
      /\ spaceFree (Reference.Refspec {| Reference.ID := "a"; Reference.Refspec := "b" |})
         = true).
Proof.
  apply (LsRemote_references_are_fields
           (printing (" a  b c " +:+ nl +:+ "lonely")) "origin" [] world0
           [{| Reference.ID := "a"; Reference.Refspec := "b" |}]).
  - reflexivity.
  - left. reflexivity.
Defined.

(** *** A listing read back *)

Lemma DecodeRune_token (c : ascii) (s : string) :
  tokenByte c = true ->
  Go.DecodeRune (String c s) = (Go.byteval c, 1%nat)
  /\ Go.IsSpace (Go.byteval c) = false.
Proof.
  destruct c as [[] [] [] [] [] [] [] []]; intros H; vm_compute in H;
    try discriminate H; split; reflexivity.
Qed.

Lemma fieldsLoop_step (c : ascii) (s : string) (space : bool) (cur : string) :
  Go.fieldsLoop (String c s) 0 space cur =
  let '(r, size) := Go.DecodeRune (String c s) in
  if Go.IsSpace r
  then Go.closeSpan cur ++ Go.fieldsLoop s (Nat.pred size) true ""
  else Go.fieldsLoop s (Nat.pred size) false (cur +:+ String c "").
Proof. reflexivity. Qed.

Lemma fieldsLoop_space_unused (s : string) (a b : bool) (cur : string) :
  Go.fieldsLoop s 0 a cur = Go.fieldsLoop s 0 b cur.
Proof. destruct s; reflexivity. Qed.

(** A token goes into the span under construction whole. *)
Lemma fieldsLoop_token (t rest : string) :
  tokenBytes t = true ->
  forall space cur,
    Go.fieldsLoop (t +:+ rest) 0 space cur = Go.fieldsLoop rest 0 false (cur +:+ t).
Proof.
  induction t as [|c t IH]; intros Ht space cur.
  - simpl. rewrite append_empty_r. apply fieldsLoop_space_unused.
  - simpl in Ht. apply andb_true_iff in Ht as [Hc Ht].
    change (String c t +:+ rest) with (String c (t +:+ rest)).
    rewrite fieldsLoop_step.
    destruct (DecodeRune_token c (t +:+ rest) Hc) as [-> ->]. cbn [Nat.pred].
    rewrite (IH Ht). rewrite append_assoc3. reflexivity.
Qed.

Lemma fieldsLoop_space (c : ascii) (rest : string) (space : bool) (cur : string) :
  Ascii.is_space c = true ->
  Go.fieldsLoop (String c rest) 0 space cur
  = Go.closeSpan cur ++ Go.fieldsLoop rest 0 true "".
Proof.
  intros Hc. rewrite fieldsLoop_step.
  destruct (DecodeRune_space c rest Hc) as [-> ->]. reflexivity.
Qed.

Lemma closeSpan_token (t : string) : token t = true -> Go.closeSpan t = [t].
Proof. destruct t; [discriminate|reflexivity]. Qed.

(** The fields of two tokens with a tab between them are the two tokens. *)
Lemma Fields_two_tokens (a b : string) :
  token a = true -> token b = true -> Go.Fields (a +:+ tab +:+ b) = [a; b].
Proof.
  intros Ha Hb. unfold Go.Fields.
  pose proof Ha as Ha'. pose proof Hb as Hb'.
  apply andb_true_iff in Ha' as [_ Hta]. apply andb_true_iff in Hb' as [_ Htb].
  rewrite (fieldsLoop_token a _ Hta). cbn [String.append tab].
  rewrite fieldsLoop_space by reflexivity.
  rewrite (closeSpan_token a Ha).
  rewrite <- (append_empty_r b) at 1.
  rewrite (fieldsLoop_token b "" Htb). cbn [Go.fieldsLoop String.append].
  rewrite (closeSpan_token b Hb). reflexivity.
Qed.

Lemma tokenBytes_no_newline (t : string) :
  tokenBytes t = true -> countByte "010" t = 0%nat.
Proof.
  induction t as [|c t IH]; [reflexivity|]. simpl. intros H.
  apply andb_true_iff in H as [Hc Ht]. rewrite (IH Ht).
  destruct (Ascii.eqb_spec c "010"%char) as [->|_]; [discriminate Hc|reflexivity].
Qed.

Lemma countByte_append (c : ascii) (a b : string) :
  countByte c (a +:+ b) = (countByte c a + countByte c b)%nat.
Proof. induction a as [|x a IH]; simpl; [reflexivity|]. rewrite IH. lia. Qed.

Lemma listingLine_one_line (r : Reference.t) :
  wellFormed r = true -> countByte "010" (listingLine r) = 0%nat.
Proof.
  unfold wellFormed, listingLine, token. intros H.
  apply andb_true_iff in H as [Hi Hr].
  apply andb_true_iff in Hi as [_ Hi]. apply andb_true_iff in Hr as [_ Hr].
  rewrite !countByte_append, (tokenBytes_no_newline _ Hi), (tokenBytes_no_newline _ Hr).
  reflexivity.
Qed.

Lemma referencesOf_around (a b : string) :
  referencesOf (a +:+ nl +:+ b) = referencesOf a ++ referencesOf b.
Proof.
  unfold referencesOf, nl. cbn [String.append].
  rewrite Split_around, List.filter_app, List.map_app. reflexivity.
Qed.

Lemma referencesOf_line (r : Reference.t) :
  wellFormed r = true -> referencesOf (listingLine r) = [r].
Proof.
  intros H. unfold referencesOf.
  rewrite (Split_whole _ _ (listingLine_one_line r H)).
  unfold wellFormed in H. apply andb_true_iff in H as [Hi Hr].
  destruct r as [i s]. cbn [Reference.ID Reference.Refspec] in Hi, Hr.
  unfold listingLine. cbn [Reference.ID Reference.Refspec List.filter].
  unfold hasTwoFields. rewrite (Fields_two_tokens _ _ Hi Hr).
  cbn [length Nat.leb map]. unfold referenceOfLine.
  rewrite (Fields_two_tokens _ _ Hi Hr). reflexivity.
Qed.

Lemma referencesOf_listing (refs : list Reference.t) :
  forallb wellFormed refs = true -> referencesOf (listing refs) = refs.
Proof.
  induction refs as [|r refs IH]; [reflexivity|].
  cbn [forallb listing]. intros H. apply andb_true_iff in H as [Hr Hrefs].
  rewrite referencesOf_around, (referencesOf_line r Hr), (IH Hrefs). reflexivity.
Qed.

(** X8.  Reading a listing gives back the references it was written from:
    when the tool prints, for references of two tokens each, the identity,
    a tab, the refspec and a newline, [LsRemote] returns those references
    in that order. *)
Theorem LsRemote_reads_listing
    (url : string) (opts : list LsRemoteOptions.t) (w : World)
    (refs : list Reference.t) :
  forallb wellFormed refs = true ->
  fst (LsRemote (printing (listing refs)) url opts w) = (Some refs, None).
Proof.
  intros H. destruct (LsRemote_outcome (printing (listing refs)) url opts w) as [inv ->].
  unfold printing. cbn [fst]. rewrite (referencesOf_listing refs H). reflexivity.
Qed.

Lemma LsRemote_reads_listing_witness :
  fst (LsRemote
         (printing (listing [{| Reference.ID := tipText; Reference.Refspec := "HEAD" |};
                             {| Reference.ID := tipText;
                                Reference.Refspec := "refs/heads/master" |}]))
         "origin" [] world0)
  = (Some [{| Reference.ID := tipText; Reference.Refspec := "HEAD" |};
           {| Reference.ID := tipText; Reference.Refspec := "refs/heads/master" |}],
     None).
Proof.
  apply (LsRemote_reads_listing "origin" [] world0). reflexivity.
Defined.

(** X9.  A listing is read line by line: the references of two outputs
    joined by a newline are the references of the first followed by those
    of the second. *)
Theorem LsRemote_joined_outputs
    (a b url : string) (opts : list LsRemoteOptions.t) (w : World) :
  exists refsA refsB,
    fst (LsRemote (printing a) url opts w) = (Some refsA, None)
    /\ fst (LsRemote (printing b) url opts w) = (Some refsB, None)
    /\ fst (LsRemote (printing (a +:+ nl +:+ b)) url opts w)
       = (Some (refsA ++ refsB), None).
Proof.
  exists (referencesOf a), (referencesOf b).
  destruct (LsRemote_outcome (printing a) url opts w) as [ia ->].
  destruct (LsRemote_outcome (printing b) url opts w) as [ib ->].
  destruct (LsRemote_outcome (printing (a +:+ nl +:+ b)) url opts w) as [iab ->].
  unfold printing. cbn [fst]. rewrite referencesOf_around. repeat split.
Qed.

(** ** Further properties of [parsePrettyFormatLogToList] *)

Lemma commitsInOrder_app
    (GetCommit : string -> Git (result Commit)) (xs ys : list string) (w : World) :
  commitsInOrder GetCommit (xs ++ ys) w =
  match commitsInOrder GetCommit xs w with
  | ((Some l1, None), w1) =>
      match commitsInOrder GetCommit ys w1 with
      | ((Some l2, None), w2) => ((Some (l1 ++ l2), None), w2)
      | other => other
      end
  | other => other
  end.
Proof.
  revert w. induction xs as [|x xs IH]; intros w.
  - cbn [app commitsInOrder ret].
    pose proof (commitsInOrder_shape GetCommit ys w) as Hs.
    destruct (commitsInOrder GetCommit ys w) as [[cs err] w2]. simpl in Hs.
    destruct Hs as [[cs' H]|[e H]]; inversion H; subst; reflexivity.
  - cbn [app commitsInOrder]. unfold bind, ret.
    destruct (GetCommit x w) as [[c [e|]] w0]; [reflexivity|].
    rewrite IH.
    pose proof (commitsInOrder_shape GetCommit xs w0) as Hs.
    destruct (commitsInOrder GetCommit xs w0) as [[cs err] w1]. simpl in Hs.
    destruct Hs as [[cs' H]|[e H]]; inversion H; subst; cbv beta iota;
      [|reflexivity].
    pose proof (commitsInOrder_shape GetCommit ys w1) as Hs2.
    destruct (commitsInOrder GetCommit ys w1) as [[cs2 err2] w2]. simpl in Hs2.
    destruct Hs2 as [[cs'' H2]|[e H2]]; inversion H2; subst; reflexivity.
Qed.

Lemma commitsInOrder_provenance
    (GetCommit : string -> Git (result Commit)) (ids : list string) :
  forall w l,
    fst (commitsInOrder GetCommit ids w) = (Some l, None) ->
    Forall (fun c => exists id w1 w2,
                In id ids /\ GetCommit id w1 = ((c, None), w2)) l.
Proof.
  induction ids as [|id ids IH]; intros w l; simpl.
  - intros H. inversion H. constructor.
  - unfold bind. destruct (GetCommit id w) as [[c [e|]] w1] eqn:Hc; simpl.
    + discriminate.
    + pose proof (IH w1) as IH1.
      destruct (commitsInOrder GetCommit ids w1) as [[[cs1|] [e1|]] w2];
        simpl in *; intros H; inversion H; subst.
      constructor.
      * exists id, w, w1. split; [left; reflexivity|exact Hc].
      * specialize (IH1 cs1 eq_refl).
        eapply List.Forall_impl; [|exact IH1].
        intros c' (id' & wa & wb & Hin & Hget).
        exists id', wa, wb. split; [right; exact Hin|exact Hget].
Qed.

(** X10.  A list the parser returns has one entry for each line of the
    input: none for empty input, otherwise one more than its newlines. *)
Theorem parsed_list_length
    (GetCommit : string -> Git (result Commit)) (logs : string) (w : World)
    (l : list (option Commit)) :
  fst (parsePrettyFormatLogToList GetCommit logs w) = (Some l, None) ->
  length l = match logs with
             | EmptyString => 0%nat
             | _ => S (countByte "010" logs)
             end.
Proof.
  rewrite parsePrettyFormatLogToList_unfold. destruct logs as [|c logs].
  - intros H. inversion H. reflexivity.
  - intros H. rewrite (commitsInOrder_length _ _ _ _ H). apply Split_length.
Qed.

Lemma parsed_list_length_witness :
  length [Some tipCommit; Some tipCommit]
  = S (countByte "010" (tipText +:+ nl +:+ tipText)).
Proof.
  apply (parsed_list_length knownGetCommit (tipText +:+ nl +:+ tipText) world0).
  reflexivity.
Defined.

(** X11.  Two inputs that are not empty, joined by a newline, parse to the
    commits of the first followed by the commits of the second, the second
    looked up in the world the first left; when the first fails, the joined
    input fails with the same error in the same world, and nothing of the
    second is looked up. *)
Theorem parse_joined_logs
    (GetCommit : string -> Git (result Commit)) (a b : string) (w : World) :
  a <> "" -> b <> "" ->
  parsePrettyFormatLogToList GetCommit (a +:+ nl +:+ b) w =
  match parsePrettyFormatLogToList GetCommit a w with
  | ((Some l1, None), w1) =>
      match parsePrettyFormatLogToList GetCommit b w1 with
      | ((Some l2, None), w2) => ((Some (l1 ++ l2), None), w2)
      | other => other
      end
  | other => other
  end.
Proof.
  intros Ha Hb. rewrite !parsePrettyFormatLogToList_unfold.
  destruct a as [|x a]; [contradiction Ha; reflexivity|].
  destruct b as [|y b]; [contradiction Hb; reflexivity|].
  change (String x a +:+ nl +:+ String y b)
    with (String x (a +:+ nl +:+ String y b)).
  cbv iota.
  change (String x (a +:+ nl +:+ String y b))
    with (String x a +:+ String "010" (String y b)).
  rewrite Split_around, commitsInOrder_app.
  destruct (commitsInOrder GetCommit (Go.Split (String x a) "010") w)
    as [[[l1|] [e1|]] w1]; try reflexivity.
  rewrite parsePrettyFormatLogToList_unfold. reflexivity.
Qed.

Lemma parse_joined_logs_witness :
  parsePrettyFormatLogToList cachedGetCommit (tipText +:+ nl +:+ "404") worldTip
  = ((None, Some ErrInvalidFormat), worldTip).
Proof.
  rewrite (parse_joined_logs cachedGetCommit tipText "404" worldTip);
    [reflexivity|discriminate|discriminate].
Defined.

(** X12.  Every entry of a list the parser returns is what [GetCommit]
    answered, without an error, for one of the lines of the input; so when
    [GetCommit] never answers [(nil, nil)], no entry is [nil]. *)
Theorem parsed_entries_come_from_lookups
    (GetCommit : string -> Git (result Commit)) (logs : string) (w : World)
    (l : list (option Commit)) :
  fst (parsePrettyFormatLogToList GetCommit logs w) = (Some l, None) ->
  Forall (fun c => exists id w1 w2,
              In id (Go.Split logs "010"%char)
              /\ GetCommit id w1 = ((c, None), w2)) l
  /\ ((forall id w1 c w2, GetCommit id w1 = ((c, None), w2) -> is_Some c) ->
      Forall is_Some l).
Proof.
  rewrite parsePrettyFormatLogToList_unfold. intros H.
  assert (Hprov : Forall (fun c => exists id w1 w2,
                            In id (Go.Split logs "010"%char)
                            /\ GetCommit id w1 = ((c, None), w2)) l).
  { destruct logs as [|x logs].
    - inversion H. constructor.
    - exact (commitsInOrder_provenance GetCommit _ _ _ H). }
  split; [exact Hprov|].
  intros Hget. eapply List.Forall_impl; [|exact Hprov].
  intros c (id & w1 & w2 & _ & Hc). exact (Hget _ _ _ _ Hc).
Qed.

Lemma parsed_entries_come_from_lookups_witness :
  Forall (fun c => exists id w1 w2,
              In id (Go.Split tipText "010"%char)
              /\ cachedGetCommit id w1 = ((c, None), w2)) [Some tipCommit]
  /\ ((forall id w1 c w2, cachedGetCommit id w1 = ((c, None), w2) -> is_Some c) ->
      Forall is_Some [Some tipCommit]).
Proof.
  apply (parsed_entries_come_from_lookups cachedGetCommit tipText worldTip).
  reflexivity.
Defined.

(** ** [OpenRepository] *)

(** X13.  [OpenRepository] returns a repository exactly when the path has an
    absolute form and that form is a directory, and the repository's [Path]
    is that absolute form; the error for a path that is not a directory is
    "no such file or directory", and a failure to make the path absolute is
    handed on. *)
Theorem OpenRepository_outcome
    (Abs : string -> string * option Failure) (isDir : string -> bool)
    (repoPath : string) :
  (forall r,
      OpenRepository Abs isDir repoPath = (Some r, None)
      <-> snd (Abs repoPath) = None
          /\ isDir (fst (Abs repoPath)) = true
          /\ r = {| Path := fst (Abs repoPath) |})
  /\ (OpenRepository Abs isDir repoPath
      = (None, Some (errors_New "no such file or directory"))
      <-> snd (Abs repoPath) = None /\ isDir (fst (Abs repoPath)) = false)
  /\ (forall f,
         OpenRepository Abs isDir repoPath = (None, Some (Raised f))
         <-> snd (Abs repoPath) = Some f).
Proof.
  unfold OpenRepository.
  destruct (Abs repoPath) as [p [e|]]; cbn [fst snd];
    [|destruct (isDir p); cbn [negb]];
    (split; [|split]); intros; (split; intros H);
    intuition (subst; congruence).
Qed.

Lemma OpenRepository_outcome_witness :
  OpenRepository (fun p => ("/srv/" +:+ p, None)) (fun _ => true) "repo"
  = (Some {| Path := "/srv/repo" |}, None).
Proof.
  apply (proj1 (OpenRepository_outcome (fun p => ("/srv/" +:+ p, None))
                  (fun _ => true) "repo")).
  repeat split.
Defined.

(** X14.  An input of one line, with no newline in it, is one lookup: its
    commit alone in the list, or its error and no list. *)
Theorem parse_single_line
    (GetCommit : string -> Git (result Commit)) (logs : string) (w : World) :
  logs <> "" -> countByte "010" logs = 0%nat ->
  parsePrettyFormatLogToList GetCommit logs w =
  match GetCommit logs w with
  | ((commit, None), w') => ((Some [commit], None), w')
  | ((_, Some e), w') => ((None, Some e), w')
  end.
Proof.
  intros Hne Hline. rewrite parsePrettyFormatLogToList_unfold.
  destruct logs as [|c logs]; [contradiction Hne; reflexivity|].
  rewrite (Split_whole _ _ Hline). cbn [commitsInOrder]. unfold bind, ret.
  destruct (GetCommit (String c logs) w) as [[commit [e|]] w']; reflexivity.
Qed.

Lemma parse_single_line_witness :
  parsePrettyFormatLogToList cachedGetCommit tipText worldTip
  = ((Some [Some tipCommit], None), worldTip).
Proof.
  rewrite (parse_single_line cachedGetCommit tipText worldTip);
    [reflexivity|discriminate|reflexivity].
Defined.

(** *** Blank text in a listing *)

Lemma blankLine_pieces (t : string) (sep : ascii) :
  blankLine t = true -> Forall (fun piece => blankLine piece = true) (Go.Split t sep).
Proof.
  induction t as [|c t IH]; intros H.
  - repeat constructor.
  - simpl in H. apply andb_true_iff in H as [Hc Ht]. specialize (IH Ht).
    cbn [Go.Split]. destruct (Ascii.eqb c sep).
    + constructor; [reflexivity|exact IH].
    + pose proof (Split_pieces t sep) as Hne.
      destruct (Go.Split t sep) as [|piece rest]; [contradiction|].
      inversion IH; subst. constructor; [|assumption].
      simpl. rewrite Hc. assumption.
Qed.

Lemma referencesOf_blank (t : string) :
  blankLine t = true -> referencesOf t = [].
Proof.
  intros H. unfold referencesOf.
  pose proof (blankLine_pieces t "010" H) as Hall.
  induction Hall as [|piece rest Hp _ IH]; [reflexivity|].
  cbn [List.filter]. unfold hasTwoFields at 1. unfold Go.Fields.
  rewrite (fieldsLoop_blank piece false Hp). exact IH.
Qed.

(** X15.  Blank text in the output changes nothing: lines of nothing but
    ASCII white space between two parts of an output give the references of
    the two parts joined directly. *)
Theorem LsRemote_blank_text
    (a blank b url : string) (opts : list LsRemoteOptions.t) (w : World) :
  blankLine blank = true ->
  fst (LsRemote (printing (a +:+ nl +:+ blank +:+ nl +:+ b)) url opts w)
  = fst (LsRemote (printing (a +:+ nl +:+ b)) url opts w).
Proof.
  intros H.
  destruct (LsRemote_outcome (printing (a +:+ nl +:+ blank +:+ nl +:+ b)) url opts w)
    as [i1 ->].
  destruct (LsRemote_outcome (printing (a +:+ nl +:+ b)) url opts w) as [i2 ->].
  unfold printing. cbn [fst].
  rewrite !referencesOf_around, (referencesOf_blank blank H). reflexivity.
Qed.

Lemma LsRemote_blank_text_witness :
  fst (LsRemote (printing ("a b" +:+ nl +:+ (" " +:+ tab) +:+ nl +:+ "c d"))
         "origin" [] world0)
  = fst (LsRemote (printing ("a b" +:+ nl +:+ "c d")) "origin" [] world0).
Proof.
  apply (LsRemote_blank_text "a b" (" " +:+ tab) "c d" "origin" [] world0).
  reflexivity.
Defined.

(** ** The revised readings: examples *)

Example gitDiff_src :
  gitDiff testChanges
    {| argv := ["diff"; "--name-only"; "45a30ea9afa413e226ca8614179c011d545ca883";
                "978fb7f6388b49b532fbef8b856681cfa6fcaa0a"; "--"; "src"];
       dir := "/srv/repo"; timeout := 0 |}
  = ("src/test/java/com/github/AppTest.java" +:+ nl, None).
Proof. reflexivity. Qed.

Example DiffNameOnly_resources :
  fst (DiffNameOnly (gitDiff testChanges) testrepo
         "45a30ea9afa413e226ca8614179c011d545ca883"
         "978fb7f6388b49b532fbef8b856681cfa6fcaa0a"
         {| DiffNameOnlyOptions.NeedsMergeBase := false;
            DiffNameOnlyOptions.Path := "resources";
            DiffNameOnlyOptions.Timeout := 0 |} world0)
  = (Some [], None).
Proof. reflexivity. Qed.

Example DiffNameOnly_merge_base :
  fst (DiffNameOnly (gitDiff testChanges) testrepo
         "45a30ea9afa413e226ca8614179c011d545ca883"
         "978fb7f6388b49b532fbef8b856681cfa6fcaa0a"
         {| DiffNameOnlyOptions.NeedsMergeBase := true;
            DiffNameOnlyOptions.Path := "";
            DiffNameOnlyOptions.Timeout := 0 |} world0)
  = (Some ["fix.txt"; "pom.xml"; "src/test/java/com/github/AppTest.java"], None).
Proof. reflexivity. Qed.

Example RevList_trailing_newline :
  fst (RevList (printing (tipText +:+ nl)) recordCommand (readRecord [tipCommit])
         testrepo ["978fb7f6388b49b532fbef8b856681cfa6fcaa0a"]
         {| RevListOptions.Path := ""; RevListOptions.Timeout := 0 |} worldTip)
  = (Some [Some tipCommit], None).
Proof. vm_compute. reflexivity. Qed.

Example CommitByRevision_tests :
  fst (CommitByRevision tipTool recordCommand (readRecord [tipCommit]) testrepo
         "4e59b72" {| CommitByRevisionOptions.Timeout := 0 |} world0)
  = (Some tipCommit, None)
  /\ fst (CommitByRevision tipTool recordCommand (readRecord [tipCommit]) testrepo
            "404" {| CommitByRevisionOptions.Timeout := 0 |} world0)
     = (None, Some ErrRevisionNotExist).
Proof. split; vm_compute; reflexivity. Qed.

(** ** A value or an error, never both: what each side holds *)

Lemma commitsInOrder_fails
    (GetCommit : string -> Git (result Commit)) (ids : list string) (id : string) :
  In id ids ->
  (forall w1, exists c e w2, GetCommit id w1 = ((c, Some e), w2)) ->
  forall w, exists e, fst (commitsInOrder GetCommit ids w) = (None, Some e).
Proof.
  intros Hin Hbad. induction ids as [|x ids IH]; [destruct Hin|]. intros w.
  cbn [commitsInOrder]. unfold bind, ret.
  destruct (GetCommit x w) as [[c [e|]] w1] eqn:Hx.
  - exists e. reflexivity.
  - destruct Hin as [->|Hin].
    + destruct (Hbad w) as (c' & e' & w' & Hid). congruence.
    + destruct (IH Hin w1) as [e He].
      destruct (commitsInOrder GetCommit ids w1) as [[cs err] w2].
      cbn [fst] in He. inversion He; subst. exists e. reflexivity.
Qed.

Lemma commitsInOrder_error
    (GetCommit : string -> Git (result Commit)) (ids : list string) :
  forall w r e,
    fst (commitsInOrder GetCommit ids w) = (r, Some e) ->
    r = None /\ exists id c w1 w2,
        In id ids /\ GetCommit id w1 = ((c, Some e), w2).
Proof.
  induction ids as [|x ids IH]; intros w r e.
  - cbn. intros H. inversion H.
  - cbn [commitsInOrder]. unfold bind, ret.
    destruct (GetCommit x w) as [[c [e0|]] w1] eqn:Hx.
    + cbn [fst]. intros H. inversion H; subst. split; [reflexivity|].
      exists x, c, w, w1. split; [left; reflexivity|exact Hx].
    + pose proof (IH w1) as IH1.
      destruct (commitsInOrder GetCommit ids w1) as [[[cs|] [e1|]] w2];
        cbn [fst] in *; intros H; inversion H; subst.
      * destruct (IH1 _ _ eq_refl) as [Hr _]. discriminate Hr.
      * destruct (IH1 _ _ eq_refl) as [_ (id & c' & wa & wb & Hin & Hget)].
        split; [reflexivity|]. exists id, c', wa, wb.
        split; [right; exact Hin|exact Hget].
Qed.

Lemma commitsInOrder_each
    (GetCommit : string -> Git (result Commit)) (ids : list string) :
  forall w l,
    fst (commitsInOrder GetCommit ids w) = (Some l, None) ->
    Forall2 (fun id c => exists w1 w2, GetCommit id w1 = ((c, None), w2)) ids l.
Proof.
  induction ids as [|x ids IH]; intros w l.
  - cbn. intros H. inversion H. constructor.
  - cbn [commitsInOrder]. unfold bind, ret.
    destruct (GetCommit x w) as [[c [e0|]] w1] eqn:Hx.
    + cbn [fst]. discriminate.
    + pose proof (IH w1) as IH1.
      destruct (commitsInOrder GetCommit ids w1) as [[[cs|] [e1|]] w2];
        cbn [fst] in *; intros H; inversion H; subst.
      constructor; [exists w, w1; exact Hx|]. apply IH1. reflexivity.
Qed.

(** C9.  An operation that returns a value beside an error returns one of
    the two and not the other, and each side is whole.  When the run of the
    tool fails, [LsRemote], [RepoRemotesList] and [RepoRemoteURLGet] return
    that failure and no list; when it succeeds they return no error and the
    list of the whole output.  [parsePrettyFormatLogToList] returns no list
    and an error as soon as the lookup of one line fails, the error being
    that of a failed lookup; a list it returns has, line by line and in
    order, what the lookup of that line answered without error.
    [OpenRepository] returns a repository and no error, or no repository and
    an error. *)
Theorem value_or_error_never_both
    (execute : Invocation -> string * option Failure)
    (stdoutToStringSlice : string -> list string)
    (GetCommit : string -> Git (result Commit))
    (Abs : string -> string * option Failure) (isDir : string -> bool) :
  (forall url opts w, exists inv,
      LsRemote execute url opts w =
      (match execute inv with
       | (_, Some e) => (None, Some (Raised e))
       | (stdout, None) =>
           (Some (map (fun line =>
                         {| Reference.ID := nth 0 (Go.Fields line) "";
                            Reference.Refspec := nth 1 (Go.Fields line) "" |})
                      (List.filter (fun line => (2 <=? length (Go.Fields line))%nat)
                                   (Go.Split stdout "010"%char))),
            None)
       end, invoked w inv))
  /\ (forall repoPath opts w, exists inv,
         RepoRemotesList execute stdoutToStringSlice repoPath opts w =
         (match execute inv with
          | (_, Some e) => (None, Some (Raised e))
          | (stdout, None) => (Some (stdoutToStringSlice stdout), None)
          end, invoked w inv))
  /\ (forall repoPath name opts w, exists inv,
         RepoRemoteURLGet execute stdoutToStringSlice repoPath name opts w =
         (match execute inv with
          | (_, Some e) => (None, Some (Raised e))
          | (stdout, None) => (Some (stdoutToStringSlice stdout), None)
          end, invoked w inv))
  /\ (forall logs w, valueXorError (fst (parsePrettyFormatLogToList GetCommit logs w)))
  /\ (forall logs w id,
         logs <> "" -> In id (Go.Split logs "010"%char) ->
         (forall w1, exists c e w2, GetCommit id w1 = ((c, Some e), w2)) ->
         exists e, fst (parsePrettyFormatLogToList GetCommit logs w) = (None, Some e))
  /\ (forall logs w r e,
         fst (parsePrettyFormatLogToList GetCommit logs w) = (r, Some e) ->
         r = None
         /\ exists id c w1 w2,
             In id (Go.Split logs "010"%char) /\ GetCommit id w1 = ((c, Some e), w2))
  /\ (forall logs w l,
         logs <> "" ->
         fst (parsePrettyFormatLogToList GetCommit logs w) = (Some l, None) ->
         Forall2 (fun id c => exists w1 w2, GetCommit id w1 = ((c, None), w2))
                 (Go.Split logs "010"%char) l)
  /\ (forall repoPath,
         valueXorError (OpenRepository Abs isDir repoPath)
         /\ forall r e, OpenRepository Abs isDir repoPath <> (Some r, Some e)).
Proof.
  repeat apply conj.
  - intros url opts w. apply LsRemote_outcome.
  - intros repoPath opts w. unfold RepoRemotesList, bind.
    rewrite RunInDirWithTimeout_run.
    match goal with
    | |- context [invoked _ ?i] => exists i; destruct (execute i) as [out [e|]]
    end; reflexivity.
  - intros repoPath name opts w. unfold RepoRemoteURLGet, bind.
    rewrite RunInDirWithTimeout_run.
    match goal with
    | |- context [invoked _ ?i] => exists i; destruct (execute i) as [out [e|]]
    end; reflexivity.
  - intros logs w. unfold parsePrettyFormatLogToList.
    destruct (Go.len logs =? 0)%nat; [exact I|].
    apply parseLoop_valueXorError.
  - intros logs w id Hne Hin Hbad. rewrite parsePrettyFormatLogToList_unfold.
    destruct logs as [|x logs]; [contradiction Hne; reflexivity|].
    exact (commitsInOrder_fails GetCommit _ id Hin Hbad w).
  - intros logs w r e. rewrite parsePrettyFormatLogToList_unfold.
    destruct logs as [|x logs]; [cbn; intros H; inversion H|].
    apply commitsInOrder_error.
  - intros logs w l Hne. rewrite parsePrettyFormatLogToList_unfold.
    destruct logs as [|x logs]; [contradiction Hne; reflexivity|].
    apply commitsInOrder_each.
  - intros repoPath. unfold OpenRepository.
    destruct (Abs repoPath) as [p [e|]]; [split; [exact I|discriminate]|].
    destruct (isDir p); split; try exact I; discriminate.
Qed.

Lemma value_or_error_never_both_witness :
  exists e,
    fst (parsePrettyFormatLogToList cachedGetCommit (tipText +:+ nl +:+ "404") worldTip)
    = (None, Some e).
Proof.
  apply (proj1 (proj2 (proj2 (proj2 (proj2
           (value_or_error_never_both (failingWith "") (fun _ => [])
              cachedGetCommit (fun p => (p, None)) (fun _ => true))))))
         (tipText +:+ nl +:+ "404") worldTip "404").
  - discriminate.
  - right. left. reflexivity.
  - intros w1. exists None, ErrInvalidFormat, w1. reflexivity.
Defined.

(** ** Name-only diffs over the tool *)










(** ** Revisions resolved over the tool *)










